(** * PLDM firmware-update device updater and state-sensor event bridge

    A shallow embedding of [fw-update/device_updater.cpp] (the per-device
    firmware-update state machine, [pldm::fw_update::DeviceUpdater]) and of
    the D-Bus to PLDM sensor-event bridge
    ([pldm::state_sensor::DbusToPLDMEvent]), followed by the properties
    established about them.

    Conventions.
    - Fixed-width unsigned integers are [Z] values; every place where the
      C++ arithmetic can wrap around is written with [u8], [u32] or
      [size_t].
    - The codec (libpldm) and the transport are external.  The status
      returned by an [encode_*], [decode_*] or [registerRequest] call is
      an input of the modelled function ([rc_encode], [rc_register], ...);
      as in C, a status is a failure when it is not [0].
    - A request buffer is represented by the fields handed to the encoder
      ([Msg]); a buffer whose encoder failed is [unencoded].
    - An out-of-range [operator[]] on a [std::vector] is undefined
      behaviour; functions that index a vector return [option] and are
      [None] there.
    - Logging ([error], [info], [debug], [warning]) is not modelled. *)

From stdpp Require Import gmap strings list.

Open Scope Z_scope.

(** ** Machine integers *)

Definition u8 (x : Z) : Z := x mod 2 ^ 8.
Definition u32 (x : Z) : Z := x mod 2 ^ 32.
Definition size_t (x : Z) : Z := x mod 2 ^ 64.

(** ** Protocol constants (libpldm) *)

(** Modelled from the spec: the libpldm headers are not part of the
    sources; the numeric values below are the ones listed in the
    specification's table of wire constants. *)
Definition PLDM_FWUP_BASELINE_TRANSFER_SIZE : Z := 32.
Definition PLDM_FWUP_MIN_OUTSTANDING_REQ : Z := 1.
Definition PLDM_START : Z := 0x01.
Definition PLDM_MIDDLE : Z := 0x02.
Definition PLDM_END : Z := 0x04.
Definition PLDM_START_AND_END : Z := 0x05.
Definition PLDM_FWUP_TRANSFER_SUCCESS : Z := 0x00.
Definition PLDM_FWUP_VERIFY_SUCCESS : Z := 0x00.
Definition PLDM_FWUP_APPLY_SUCCESS : Z := 0x00.
Definition PLDM_FWUP_APPLY_SUCCESS_WITH_ACTIVATION_METHOD : Z := 0x01.
Definition PLDM_SENSOR_UNKNOWN : Z := 0xFF.

(** Completion codes this responder puts in a reply.  Only their being
    distinct matters, so the enumeration is kept symbolic. *)
Inductive pldm_completion_codes :=
| PLDM_SUCCESS
| PLDM_ERROR_INVALID_DATA
| PLDM_FWUP_INVALID_TRANSFER_LENGTH
| PLDM_FWUP_DATA_OUT_OF_RANGE.

Inductive pldm_supported_types := PLDM_PLATFORM | PLDM_FWUP.

Inductive pldm_commands :=
| PLDM_PLATFORM_EVENT_MESSAGE
| PLDM_REQUEST_UPDATE
| PLDM_PASS_COMPONENT_TABLE
| PLDM_UPDATE_COMPONENT
| PLDM_ACTIVATE_FIRMWARE
| PLDM_CANCEL_UPDATE_COMPONENT.

Inductive pldm_event_types := PLDM_SENSOR_EVENT.
Inductive sensor_event_class_states := PLDM_STATE_SENSOR_STATE.

(** [struct pldm_sensor_event_data] with its three [event_class] bytes. *)
Record pldm_sensor_event_data := mk_sensor_event {
  sensor_id : Z;
  sensor_event_class_type : sensor_event_class_states;
  event_class_0 : Z;
  event_class_1 : Z;
  event_class_2 : Z
}.

(** ** The outbound request pipeline *)

(** What the encoder was asked to write into a request buffer. *)
Inductive Msg :=
| request_update_req
    (max_transfer_size num_of_comp max_outstanding_transfer_req
       pkg_data_len comp_image_set_ver_str_len : Z)
    (comp_img_set_ver_str : string)
| pass_component_table_req
    (transfer_flag comp_classification comp_identifier
       comp_classification_index comp_comparison_stamp
       comp_ver_str_len : Z)
    (comp_ver_str : string)
| update_component_req
    (comp_classification comp_identifier comp_classification_index
       comp_comparison_stamp comp_image_size : Z)
    (update_option_flags_bit0 : bool)
    (comp_ver_str_len : Z) (comp_ver_str : string)
| activate_firmware_req (self_contained_activation_req : bool)
| cancel_update_component_req
| platform_event_message_req
    (event_type : pldm_event_types) (event_data : pldm_sensor_event_data)
| unencoded.

(** One call of [Handler::registerRequest] that was accepted. *)
Record Request := mk_request {
  req_eid : Z;
  req_instance_id : Z;
  req_type : pldm_supported_types;
  req_command : pldm_commands;
  req_msg : Msg
}.

(** Modelled from the spec: [pldm::InstanceIdDb] is declared outside the
    sources.  The allocator holds the (endpoint, id) pairs that are in
    use; [next] hands out an unused id in 0..31 of the endpoint (the
    least one) or reports exhaustion, [free] returns an id to the pool. *)
Definition InstanceIdDb_next (db : gset (Z * Z)) (eid : Z)
  : option (Z * gset (Z * Z)) :=
  match List.find (λ i, bool_decide ((eid, i) ∉ db))
                  (Z.of_nat <$> seq 0 32) with
  | Some i => Some (i, {[ (eid, i) ]} ∪ db)
  | None => None
  end.

Definition InstanceIdDb_free (db : gset (Z * Z)) (eid instanceId : Z)
  : gset (Z * Z) :=
  db ∖ {[ (eid, instanceId) ]}.

(** Modelled from the spec: [requester::Handler::registerRequest] is
    declared outside the sources.  It records the transaction and returns
    a status; a request whose registration fails is not recorded. *)
Definition registerRequest (handler : list Request) (r : Request)
    (rc : Z) : list Request :=
  if decide (rc = 0) then handler ++ [r] else handler.

(** The arguments of a response callback: the [response] pointer
    ([resp_present] is [false] for [nullptr]), [respMsgLen], and what the
    decoder yields when it is run on the buffer. *)
Record ResponseMsg := mk_response {
  resp_present : bool;
  respMsgLen : Z;
  resp_decode_rc : Z;
  resp_completionCode : Z
}.

(** [response == nullptr || !respMsgLen] *)
Definition no_response (r : ResponseMsg) : bool :=
  negb (resp_present r) || (respMsgLen r =? 0).

(** * Firmware-update device state machine *)

Module fw_update.

(** [ComponentImageInfo], a tuple indexed by [ComponentImageInfoPos]. *)
Record ComponentImageInfo := mk_comp {
  CompClassification : Z;       (* 0 *)
  CompIdentifier : Z;           (* 1 *)
  CompComparisonStamp : Z;      (* 2 *)
  CompOptions : Z;              (* 3, a bitset *)
  ReqCompActivationMethod : Z;  (* 4 *)
  CompLocationOffset : Z;       (* 5 *)
  CompSize : Z;                 (* 6 *)
  CompVersion : string          (* 7 *)
}.

Record FirmwareDeviceIDRecord := mk_fdir {
  ApplicableComponents : list Z;
  FirmwareDevicePackageData : list Z;
  ComponentImageSetVersion : string
}.

(** The members of [DeviceUpdater] that are fixed at construction. *)
Record Config := mk_config {
  eid : Z;
  fwDeviceIDRecord : FirmwareDeviceIDRecord;
  compImageInfos : list ComponentImageInfo;
  compInfo : gmap (Z * Z) Z;
  maxTransferSize : Z;
  package : list Z;
  updateTimeoutSeconds : Z
}.

(** A scheduled [sdeventplus::source::Defer]: the bound member call. *)
Inductive Defer :=
| defer_sendPassCompTableRequest (offset : Z)
| defer_sendUpdateComponentRequest (offset : Z)
| defer_sendActivateFirmwareRequest.

(** The part of [UpdateManager] the device updater reaches. *)
Record UpdateManager := mk_manager {
  instanceIdDb : gset (Z * Z);
  handler : list Request;
  deviceCompletion : list (Z * bool);  (* updateDeviceCompletion calls *)
  activationProgress : nat             (* updateActivationProgress calls *)
}.

(** The mutable members of [DeviceUpdater].  [reqFwDataTimer] is [None]
    for a null pointer and [Some running] for a live timer;
    [packageGood] is the [good()] bit of the package stream. *)
Record DeviceUpdater := mk_updater {
  componentIndex : Z;
  componentUpdateStatus : gmap Z bool;
  pldmRequest : option Defer;
  reqFwDataTimer : option bool;
  packageGood : bool;
  updateManager : UpdateManager
}.

Definition with_manager (s : DeviceUpdater) (m : UpdateManager) :=
  mk_updater (componentIndex s) (componentUpdateStatus s) (pldmRequest s)
             (reqFwDataTimer s) (packageGood s) m.
Definition with_pldmRequest (s : DeviceUpdater) (d : option Defer) :=
  mk_updater (componentIndex s) (componentUpdateStatus s) d
             (reqFwDataTimer s) (packageGood s) (updateManager s).
Definition with_componentIndex (s : DeviceUpdater) (i : Z) :=
  mk_updater i (componentUpdateStatus s) (pldmRequest s)
             (reqFwDataTimer s) (packageGood s) (updateManager s).
Definition with_componentUpdateStatus (s : DeviceUpdater)
    (st : gmap Z bool) :=
  mk_updater (componentIndex s) st (pldmRequest s)
             (reqFwDataTimer s) (packageGood s) (updateManager s).
Definition with_reqFwDataTimer (s : DeviceUpdater) (t : option bool) :=
  mk_updater (componentIndex s) (componentUpdateStatus s) (pldmRequest s)
             t (packageGood s) (updateManager s).
Definition with_packageGood (s : DeviceUpdater) (g : bool) :=
  mk_updater (componentIndex s) (componentUpdateStatus s) (pldmRequest s)
             (reqFwDataTimer s) g (updateManager s).

Definition with_instanceIdDb (m : UpdateManager) (db : gset (Z * Z)) :=
  mk_manager db (handler m) (deviceCompletion m) (activationProgress m).
Definition with_handler (m : UpdateManager) (h : list Request) :=
  mk_manager (instanceIdDb m) h (deviceCompletion m) (activationProgress m).

(** [updateManager->updateDeviceCompletion(eid, status)] *)
Definition updateDeviceCompletion (s : DeviceUpdater) (e : Z) (ok : bool) :=
  let m := updateManager s in
  with_manager s
    (mk_manager (instanceIdDb m) (handler m)
                (deviceCompletion m ++ [(e, ok)]) (activationProgress m)).

(** [updateManager->updateActivationProgress()] *)
Definition updateActivationProgress (s : DeviceUpdater) :=
  let m := updateManager s in
  with_manager s
    (mk_manager (instanceIdDb m) (handler m) (deviceCompletion m)
                (S (activationProgress m))).

Section device_updater.

Variable cfg : Config.

Definition applicableComponents : list Z :=
  ApplicableComponents (fwDeviceIDRecord cfg).

(** [applicableComponents.size()], a [size_t]. *)
Definition num_components : Z :=
  size_t (Z.of_nat (length applicableComponents)).

(** [compImageInfos[applicableComponents[i]]] *)
Definition component_at (i : Z) : option ComponentImageInfo :=
  if decide (0 ≤ i) then
    c ← applicableComponents !! Z.to_nat i;
    if decide (0 ≤ c) then compImageInfos cfg !! Z.to_nat c else None
  else None.

(** The lookup of the classification index: value-initialised ([0]) when
    the key is missing from [compInfo]. *)
Definition classification_index (comp : ComponentImageInfo) : Z :=
  match compInfo cfg !! (CompClassification comp, CompIdentifier comp) with
  | Some idx => idx
  | None => 0
  end.

(** The tail shared by the send operations: when the encoder failed the
    instance id is freed; [registerRequest] is then called. *)
Definition free_on_failure (s : DeviceUpdater) (instanceId rc_encode : Z)
  : DeviceUpdater :=
  if decide (rc_encode ≠ 0) then
    with_manager s
      (with_instanceIdDb (updateManager s)
         (InstanceIdDb_free (instanceIdDb (updateManager s)) (eid cfg)
                            instanceId))
  else s.

Definition register (s : DeviceUpdater) (instanceId : Z)
    (cmd : pldm_commands) (msg : Msg) (rc_register : Z) : DeviceUpdater :=
  with_manager s
    (with_handler (updateManager s)
       (registerRequest (handler (updateManager s))
          (mk_request (eid cfg) instanceId PLDM_FWUP cmd msg) rc_register)).

(** What the request buffer holds after the encoder ran. *)
Definition encoded (rc_encode : Z) (m : Msg) : Msg :=
  if decide (rc_encode = 0) then m else unencoded.

(** [instanceIdDb.next(eid)] through [getInstanceId]. *)
Definition next_instance_id (s : DeviceUpdater)
  : option (Z * DeviceUpdater) :=
  match InstanceIdDb_next (instanceIdDb (updateManager s)) (eid cfg) with
  | Some (i, db) =>
      Some (i, with_manager s (with_instanceIdDb (updateManager s) db))
  | None => None
  end.

(** [DeviceUpdater::startFwUpdateFlow] *)
Definition startFwUpdateFlow (s : DeviceUpdater)
    (rc_encode rc_register : Z) : DeviceUpdater :=
  match next_instance_id s with
  | None => s
  | Some (instanceId, s) =>
      let compImageSetVersion :=
        ComponentImageSetVersion (fwDeviceIDRecord cfg) in
      let length_ := u8 (Z.of_nat (String.length compImageSetVersion)) in
      let request :=
        encoded rc_encode
          (request_update_req (maxTransferSize cfg) num_components
             PLDM_FWUP_MIN_OUTSTANDING_REQ
             (Z.of_nat
                (length (FirmwareDevicePackageData (fwDeviceIDRecord cfg))))
             length_ compImageSetVersion) in
      let s := free_on_failure s instanceId rc_encode in
      register s instanceId PLDM_REQUEST_UPDATE request rc_register
  end.

(** The transfer flag chosen in [sendPassCompTableRequest]. *)
Definition transferFlag_of (offset : Z) : Z :=
  if decide (num_components = 1) then PLDM_START_AND_END
  else if decide (offset = 0) then PLDM_START
  else if decide (offset = size_t (num_components - 1)) then PLDM_END
  else PLDM_MIDDLE.

(** [DeviceUpdater::sendPassCompTableRequest] *)
Definition sendPassCompTableRequest (s : DeviceUpdater) (offset : Z)
    (rc_encode rc_register : Z) : option DeviceUpdater :=
  let s := with_pldmRequest s None in
  match next_instance_id s with
  | None => Some s
  | Some (instanceId, s) =>
      let transferFlag := transferFlag_of offset in
      comp ← component_at offset;
      let compVersion := CompVersion comp in
      let length_ := u8 (Z.of_nat (String.length compVersion)) in
      let request :=
        encoded rc_encode
          (pass_component_table_req transferFlag
             (CompClassification comp) (CompIdentifier comp)
             (classification_index comp) (CompComparisonStamp comp)
             length_ compVersion) in
      let s := free_on_failure s instanceId rc_encode in
      Some (register s instanceId PLDM_PASS_COMPONENT_TABLE request
                     rc_register)
  end.

(** [DeviceUpdater::sendUpdateComponentRequest] *)
Definition sendUpdateComponentRequest (s : DeviceUpdater) (offset : Z)
    (rc_encode rc_register : Z) : option DeviceUpdater :=
  let s := with_pldmRequest s None in
  match next_instance_id s with
  | None => Some s
  | Some (instanceId, s) =>
      comp ← component_at offset;
      let updateOptionFlags_bit0 := Z.testbit (CompOptions comp) 0 in
      let compVersion := CompVersion comp in
      let length_ := u8 (Z.of_nat (String.length compVersion)) in
      let request :=
        encoded rc_encode
          (update_component_req
             (CompClassification comp) (CompIdentifier comp)
             (classification_index comp) (CompComparisonStamp comp)
             (CompSize comp) updateOptionFlags_bit0 length_ compVersion) in
      let s := free_on_failure s instanceId rc_encode in
      Some (register s instanceId PLDM_UPDATE_COMPONENT request rc_register)
  end.

(** [DeviceUpdater::sendActivateFirmwareRequest];
    [PLDM_NOT_ACTIVATE_SELF_CONTAINED_COMPONENTS] is [false]. *)
Definition sendActivateFirmwareRequest (s : DeviceUpdater)
    (rc_encode rc_register : Z) : DeviceUpdater :=
  let s := with_pldmRequest s None in
  match next_instance_id s with
  | None => s
  | Some (instanceId, s) =>
      let request := encoded rc_encode (activate_firmware_req false) in
      let s := free_on_failure s instanceId rc_encode in
      register s instanceId PLDM_ACTIVATE_FIRMWARE request rc_register
  end.

(** [DeviceUpdater::sendCancelUpdateComponentRequest]: the one send
    operation of the class that returns after a failed encode. *)
Definition sendCancelUpdateComponentRequest (s : DeviceUpdater)
    (rc_encode rc_register : Z) : DeviceUpdater :=
  let s := with_pldmRequest s None in
  match next_instance_id s with
  | None => s
  | Some (instanceId, s) =>
      if decide (rc_encode ≠ 0) then
        free_on_failure s instanceId rc_encode
      else
        register s instanceId PLDM_CANCEL_UPDATE_COMPONENT
                 cancel_update_component_req rc_register
  end.

(** [DeviceUpdater::requestUpdate], the RequestUpdate response handler. *)
Definition requestUpdate (s : DeviceUpdater) (eid' : Z) (r : ResponseMsg)
  : DeviceUpdater :=
  if no_response r then updateDeviceCompletion s eid' false
  else if decide (resp_decode_rc r ≠ 0) then s
  else if decide (resp_completionCode r ≠ 0) then
    updateDeviceCompletion s eid' false
  else
    with_pldmRequest s
      (Some (defer_sendPassCompTableRequest (componentIndex s))).

(** [DeviceUpdater::passCompTable] *)
Definition passCompTable (s : DeviceUpdater) (eid' : Z) (r : ResponseMsg)
  : DeviceUpdater :=
  if no_response r then updateDeviceCompletion s eid' false
  else if decide (resp_decode_rc r ≠ 0) then s
  else if decide (resp_completionCode r ≠ 0) then
    updateDeviceCompletion s eid' false
  else if decide (componentIndex s = size_t (num_components - 1)) then
    let s := with_componentIndex s 0 in
    with_pldmRequest s
      (Some (defer_sendUpdateComponentRequest (componentIndex s)))
  else
    let s := with_componentIndex s (componentIndex s + 1) in
    with_pldmRequest s
      (Some (defer_sendPassCompTableRequest (componentIndex s))).

(** [DeviceUpdater::updateComponent].  In the branch of a non-zero
    completion code the source returns *before* the call of
    [updateDeviceCompletion], which is therefore never executed. *)
Definition updateComponent (s : DeviceUpdater) (eid' : Z) (r : ResponseMsg)
  : DeviceUpdater :=
  if no_response r then updateDeviceCompletion s eid' false
  else if decide (resp_decode_rc r ≠ 0) then s
  else if decide (resp_completionCode r ≠ 0) then s
  else s.

(** [DeviceUpdater::activateFirmware] *)
Definition activateFirmware (s : DeviceUpdater) (eid' : Z) (r : ResponseMsg)
  : DeviceUpdater :=
  if no_response r then updateDeviceCompletion s eid' false
  else if decide (resp_decode_rc r ≠ 0) then s
  else if decide (resp_completionCode r ≠ 0) then
    updateDeviceCompletion s eid' false
  else updateDeviceCompletion s eid' true.

(** The loop over [componentUpdateStatus] in [cancelUpdateComponent]:
    is some recorded status [true]? *)
Definition any_status_true (st : gmap Z bool) : bool :=
  existsb snd (map_to_list st).

(** [DeviceUpdater::cancelUpdateComponent] *)
Definition cancelUpdateComponent (s : DeviceUpdater) (eid' : Z)
    (r : ResponseMsg) : DeviceUpdater :=
  if no_response r then s
  else if decide (resp_decode_rc r ≠ 0) then s
  else if decide (resp_completionCode r ≠ 0) then s
  else if decide (componentIndex s = size_t (num_components - 1)) then
    if any_status_true (componentUpdateStatus s) then
      let s := with_componentIndex s 0 in
      let s := with_componentUpdateStatus s ∅ in
      with_pldmRequest s (Some defer_sendActivateFirmwareRequest)
    else updateDeviceCompletion s eid' false
  else
    let s := with_componentIndex s (componentIndex s + 1) in
    let s := with_componentUpdateStatus s
               (<[componentIndex s := true]> (componentUpdateStatus s)) in
    with_pldmRequest s
      (Some (defer_sendUpdateComponentRequest (componentIndex s))).

(** The callback installed by [createRequestFwDataTimer]. *)
Definition reqFwDataTimer_expired (s : DeviceUpdater)
    (rc_encode rc_register : Z) : DeviceUpdater :=
  let s := with_componentUpdateStatus s
             (<[componentIndex s := false]> (componentUpdateStatus s)) in
  let s := sendCancelUpdateComponentRequest s rc_encode rc_register in
  updateDeviceCompletion s (eid cfg) false.

(** A reply to a device-initiated command: the completion code handed to
    the response encoder and the bytes that follow it in the buffer. *)
Record Response := mk_reply {
  completionCode : pldm_completion_codes;
  payload : list Z
}.

(** [package.seekg(pos); package.read(buf, count)] into a zeroed buffer
    of [len] bytes: the bytes the stream delivers, then the untouched
    zeroes.  A stream that is not [good()] delivers nothing; a read that
    meets the end of the package leaves the stream failed. *)
Definition package_read (good : bool) (pos count len : Z) : list Z * bool :=
  let got :=
    if good then take (Z.to_nat count) (drop (Z.to_nat pos) (package cfg))
    else [] in
  (got ++ replicate (Z.to_nat len - length got)%nat 0,
   good && bool_decide (length got = Z.to_nat count)).

(** [DeviceUpdater::requestFwData].  [offset] and [length] are the
    [uint32_t] fields the decoder produced.

    Modelled from the spec: the aliases [CompLocationOffset] and
    [CompSize] are declared outside the sources; both are taken as
    [uint32_t], the width of the corresponding package header fields, so
    that [compSize + PLDM_FWUP_BASELINE_TRANSFER_SIZE] and
    [compOffset + offset] are 32-bit sums like [offset + length]. *)
Definition requestFwData (s : DeviceUpdater)
    (rc_decode offset length_ rc_encode : Z)
  : option (DeviceUpdater * Response) :=
  if decide (rc_decode ≠ 0) then
    Some (s, mk_reply PLDM_ERROR_INVALID_DATA [])
  else
    comp ← component_at (componentIndex s);
    let compOffset := CompLocationOffset comp in
    let compSize := CompSize comp in
    if decide (length_ < PLDM_FWUP_BASELINE_TRANSFER_SIZE
               ∨ length_ > maxTransferSize cfg) then
      Some (s, mk_reply PLDM_FWUP_INVALID_TRANSFER_LENGTH [])
    else if decide (u32 (offset + length_)
                    > u32 (compSize + PLDM_FWUP_BASELINE_TRANSFER_SIZE)) then
      Some (s, mk_reply PLDM_FWUP_DATA_OUT_OF_RANGE [])
    else
      let padBytes :=
        if decide (u32 (offset + length_) > compSize)
        then u32 (u32 (offset + length_) - compSize) else 0 in
      let '(data, good) :=
        package_read (packageGood s) (u32 (compOffset + offset))
                     (size_t (length_ - padBytes)) length_ in
      let s := with_packageGood s good in
      let response := mk_reply PLDM_SUCCESS data in
      if decide (rc_encode ≠ 0) then Some (s, response)
      else
        (* createRequestFwDataTimer() when there is none, then start *)
        Some (with_reqFwDataTimer s (Some true), response).

(** The branch shared by [transferComplete], [verifyComplete] and
    [applyComplete] when the device reports a failure. *)
Definition component_failed (s : DeviceUpdater)
    (rc_encode rc_register : Z) : DeviceUpdater :=
  let s := updateDeviceCompletion s (eid cfg) false in
  let s := with_componentUpdateStatus s
             (<[componentIndex s := false]> (componentUpdateStatus s)) in
  sendCancelUpdateComponentRequest s rc_encode rc_register.

(** [DeviceUpdater::transferComplete]; the result is the new state and
    the completion code of the reply.  [rc_encode] and [rc_register]
    belong to the nested [sendCancelUpdateComponentRequest]. *)
Definition transferComplete (s : DeviceUpdater)
    (rc_decode transferResult rc_encode rc_register : Z)
  : option (DeviceUpdater * pldm_completion_codes) :=
  let s := with_reqFwDataTimer s None in
  if decide (rc_decode ≠ 0) then Some (s, PLDM_ERROR_INVALID_DATA)
  else
    _ ← component_at (componentIndex s);
    if decide (transferResult = PLDM_FWUP_TRANSFER_SUCCESS) then
      Some (s, PLDM_SUCCESS)
    else Some (component_failed s rc_encode rc_register, PLDM_SUCCESS).

(** [DeviceUpdater::verifyComplete] *)
Definition verifyComplete (s : DeviceUpdater)
    (rc_decode verifyResult rc_encode rc_register : Z)
  : option (DeviceUpdater * pldm_completion_codes) :=
  if decide (rc_decode ≠ 0) then Some (s, PLDM_ERROR_INVALID_DATA)
  else
    _ ← component_at (componentIndex s);
    if decide (verifyResult = PLDM_FWUP_VERIFY_SUCCESS) then
      Some (s, PLDM_SUCCESS)
    else Some (component_failed s rc_encode rc_register, PLDM_SUCCESS).

(** [DeviceUpdater::applyComplete] *)
Definition applyComplete (s : DeviceUpdater)
    (rc_decode applyResult rc_encode rc_register : Z)
  : option (DeviceUpdater * pldm_completion_codes) :=
  if decide (rc_decode ≠ 0) then Some (s, PLDM_ERROR_INVALID_DATA)
  else
    _ ← component_at (componentIndex s);
    if decide (applyResult = PLDM_FWUP_APPLY_SUCCESS
               ∨ applyResult
                 = PLDM_FWUP_APPLY_SUCCESS_WITH_ACTIVATION_METHOD) then
      let s := updateActivationProgress s in
      if decide (componentIndex s = size_t (num_components - 1)) then
        let s := with_componentIndex s 0 in
        let s := with_componentUpdateStatus s ∅ in
        let s := with_componentUpdateStatus s
                   (<[componentIndex s := true]>
                      (componentUpdateStatus s)) in
        Some (with_pldmRequest s (Some defer_sendActivateFirmwareRequest),
              PLDM_SUCCESS)
      else
        let s := with_componentIndex s (componentIndex s + 1) in
        let s := with_componentUpdateStatus s
                   (<[componentIndex s := true]>
                      (componentUpdateStatus s)) in
        Some (with_pldmRequest s
                (Some (defer_sendUpdateComponentRequest (componentIndex s))),
              PLDM_SUCCESS)
    else Some (component_failed s rc_encode rc_register, PLDM_SUCCESS).

(** ** The event loop around one device updater *)

(** Everything that can make the device updater run.  Each event carries
    the statuses the codec and the transport return during it. *)
Inductive Event :=
| ev_startFwUpdateFlow (rc_encode rc_register : Z)
| ev_deferred (rc_encode rc_register : Z)
| ev_response (n : nat) (r : ResponseMsg)
| ev_requestFwData (rc_decode offset length_ rc_encode : Z)
| ev_transferComplete (rc_decode transferResult rc_encode rc_register : Z)
| ev_verifyComplete (rc_decode verifyResult rc_encode rc_register : Z)
| ev_applyComplete (rc_decode applyResult rc_encode rc_register : Z)
| ev_timer (rc_encode rc_register : Z).

(** Run the scheduled [Defer], if there is one. *)
Definition run_deferred (s : DeviceUpdater) (rc_encode rc_register : Z)
  : option DeviceUpdater :=
  match pldmRequest s with
  | None => None
  | Some (defer_sendPassCompTableRequest offset) =>
      sendPassCompTableRequest s offset rc_encode rc_register
  | Some (defer_sendUpdateComponentRequest offset) =>
      sendUpdateComponentRequest s offset rc_encode rc_register
  | Some defer_sendActivateFirmwareRequest =>
      Some (sendActivateFirmwareRequest s rc_encode rc_register)
  end.

(** Modelled from the spec: the pipeline answers the [n]-th pending
    request: the transaction is dropped, its instance id is freed, and
    the callback registered with it runs once. *)
Definition deliver (s : DeviceUpdater) (n : nat) (r : ResponseMsg)
  : option DeviceUpdater :=
  req ← handler (updateManager s) !! n;
  let m := updateManager s in
  let s := with_manager s
             (with_handler
                (with_instanceIdDb m
                   (InstanceIdDb_free (instanceIdDb m) (req_eid req)
                                      (req_instance_id req)))
                (delete n (handler m))) in
  match req_command req with
  | PLDM_REQUEST_UPDATE => Some (requestUpdate s (req_eid req) r)
  | PLDM_PASS_COMPONENT_TABLE => Some (passCompTable s (req_eid req) r)
  | PLDM_UPDATE_COMPONENT => Some (updateComponent s (req_eid req) r)
  | PLDM_ACTIVATE_FIRMWARE => Some (activateFirmware s (req_eid req) r)
  | PLDM_CANCEL_UPDATE_COMPONENT =>
      Some (cancelUpdateComponent s (req_eid req) r)
  | PLDM_PLATFORM_EVENT_MESSAGE => Some s
  end.

(** One turn of the event loop; [None] when the event is not enabled in
    [s] or the source's behaviour is undefined. *)
Definition step (s : DeviceUpdater) (e : Event) : option DeviceUpdater :=
  match e with
  | ev_startFwUpdateFlow rc_encode rc_register =>
      Some (startFwUpdateFlow s rc_encode rc_register)
  | ev_deferred rc_encode rc_register =>
      run_deferred s rc_encode rc_register
  | ev_response n r => deliver s n r
  | ev_requestFwData rc_decode offset length_ rc_encode =>
      fst <$> requestFwData s rc_decode offset length_ rc_encode
  | ev_transferComplete rc_decode res rc_encode rc_register =>
      fst <$> transferComplete s rc_decode res rc_encode rc_register
  | ev_verifyComplete rc_decode res rc_encode rc_register =>
      fst <$> verifyComplete s rc_decode res rc_encode rc_register
  | ev_applyComplete rc_decode res rc_encode rc_register =>
      fst <$> applyComplete s rc_decode res rc_encode rc_register
  | ev_timer rc_encode rc_register =>
      match reqFwDataTimer s with
      | Some true =>
          Some (reqFwDataTimer_expired (with_reqFwDataTimer s (Some false))
                                       rc_encode rc_register)
      | _ => None
      end
  end.

End device_updater.

End fw_update.

(** * State-sensor event bridge *)

Module state_sensor.

(** [pldm::utils::PropertyValue], the variant of a bus property. *)
Inductive PropertyValue :=
| pv_bool (b : bool)
| pv_uint8 (n : Z)
| pv_uint16 (n : Z)
| pv_uint32 (n : Z)
| pv_string (str : string).

Global Instance PropertyValue_eq_dec : EqDecision PropertyValue.
Proof. solve_decision. Defined.

Record DBusMapping := mk_mapping {
  objectPath : string;
  interface : string;
  propertyName : string;
  propertyType : string
}.

(** The mutable state the bridge works on.  [sensorCacheMap] maps a
    sensor id to its per-offset states. *)
Record DbusToPLDMEvent := mk_bridge {
  instanceIdDb : gset (Z * Z);
  handler : list Request;
  sensorCacheMap : gmap Z (gmap Z Z)
}.

(** One [sdbusplus::bus::match_t] made by [sendStateSensorEvent]: the
    values its lambda captured. *)
Record StateSensorMatch := mk_match {
  match_sensorId : Z;
  match_offset : Z;
  match_dbusMapping : DBusMapping;
  match_dbusValueMapping : list (Z * PropertyValue)
}.

Section bridge.

Variable mctp_eid : Z.

(** [pldm::utils::split(src, "||", " ")] is defined outside the sources
    and is taken as given. *)
Variable split : string → list string.

(** [DbusToPLDMEvent::sendEventMsg] *)
Definition sendEventMsg (s : DbusToPLDMEvent)
    (eventType : pldm_event_types) (eventDataVec : pldm_sensor_event_data)
    (rc_encode rc_register : Z) : DbusToPLDMEvent :=
  match InstanceIdDb_next (instanceIdDb s) mctp_eid with
  | None => s
  | Some (instanceId, db) =>
      if decide (rc_encode ≠ 0) then
        mk_bridge (InstanceIdDb_free db mctp_eid instanceId) (handler s)
                  (sensorCacheMap s)
      else
        mk_bridge db
          (registerRequest (handler s)
             (mk_request mctp_eid instanceId PLDM_PLATFORM
                PLDM_PLATFORM_EVENT_MESSAGE
                (platform_event_message_req eventType eventDataVec))
             rc_register)
          (sensorCacheMap s)
  end.

(** Modelled from the spec: the sensor cache and [updateSensorCacheMaps]
    are declared outside the sources.  The cache holds, per sensor id, a
    state for every composite offset, [PLDM_SENSOR_UNKNOWN] until one is
    stored; the update stores its argument at [cache[sensorId][offset]]. *)
Definition cache_at (cache : gmap Z (gmap Z Z)) (sensorId offset : Z) : Z :=
  match cache !! sensorId with
  | Some states => default PLDM_SENSOR_UNKNOWN (states !! offset)
  | None => PLDM_SENSOR_UNKNOWN
  end.

Definition updateSensorCacheMaps (s : DbusToPLDMEvent)
    (sensorId offset previousState : Z) : DbusToPLDMEvent :=
  mk_bridge (instanceIdDb s) (handler s)
    (<[sensorId :=
         <[offset := previousState]>
           (default ∅ (sensorCacheMap s !! sensorId))]>
       (sensorCacheMap s)).

(** The test of one value-mapping entry against the incoming value;
    [None] when [std::get<std::string>] throws. *)
Definition findValue (dbusMapping : DBusMapping)
    (candidate incoming : PropertyValue) : option bool :=
  if decide (propertyType dbusMapping = "string") then
    match candidate, incoming with
    | pv_string src, pv_string dst => Some (bool_decide (dst ∈ split src))
    | _, _ => None
    end
  else Some (bool_decide (candidate = incoming)).

(** The state reported as previous: the cached one when the sensor has a
    known entry, else the new state itself. *)
Definition previous_state (s : DbusToPLDMEvent)
    (sensorId offset newState : Z) : Z :=
  if bool_decide (is_Some (sensorCacheMap s !! sensorId))
     && negb (cache_at (sensorCacheMap s) sensorId offset
              =? PLDM_SENSOR_UNKNOWN)
  then cache_at (sensorCacheMap s) sensorId offset
  else newState.

(** The loop over [dbusValueMapping] in the lambda of
    [sendStateSensorEvent]. *)
Fixpoint match_loop (s : DbusToPLDMEvent) (m : StateSensorMatch)
    (incoming : PropertyValue) (entries : list (Z * PropertyValue))
    (rc_encode rc_register : Z) : option DbusToPLDMEvent :=
  match entries with
  | [] => Some s
  | itr :: rest =>
      found ← findValue (match_dbusMapping m) itr.2 incoming;
      if found : bool then
        let previousState :=
          previous_state s (match_sensorId m) (match_offset m) itr.1 in
        let eventData :=
          mk_sensor_event (match_sensorId m) PLDM_STATE_SENSOR_STATE
            (u8 (match_offset m)) itr.1 previousState in
        let s := sendEventMsg s PLDM_SENSOR_EVENT eventData
                              rc_encode rc_register in
        Some (updateSensorCacheMaps s (match_sensorId m) (match_offset m)
                                    previousState)
      else match_loop s m incoming rest rc_encode rc_register
  end.

(** The lambda subscribed to [PropertiesChanged]: [props] is the map of
    changed properties read from the message. *)
Definition propertiesChanged (s : DbusToPLDMEvent) (m : StateSensorMatch)
    (props : gmap string PropertyValue) (rc_encode rc_register : Z)
  : option DbusToPLDMEvent :=
  match props !! propertyName (match_dbusMapping m) with
  | None => Some s
  | Some incoming =>
      match_loop s m incoming (match_dbusValueMapping m)
                 rc_encode rc_register
  end.

(** [DbusToPLDMEvent::sendStateSensorEvent]: the matches created for one
    sensor, one per composite offset; none for a sensor that has no entry
    in [dbusMaps]. *)
Definition sendStateSensorEvent (sensorId : Z)
    (dbusMaps : gmap Z (list DBusMapping * list (list (Z * PropertyValue))))
  : option (list StateSensorMatch) :=
  match dbusMaps !! sensorId with
  | None => Some []
  | Some (dbusMappings, dbusValMaps) =>
      mapM (λ offset : nat,
              dbusMapping ← dbusMappings !! offset;
              dbusValueMapping ← dbusValMaps !! offset;
              Some (mk_match sensorId (Z.of_nat offset) dbusMapping
                             dbusValueMapping))
           (seq 0 (length dbusMappings))
  end.

(** A run of signals delivered to one match, oldest first. *)
Fixpoint signals (s : DbusToPLDMEvent) (m : StateSensorMatch)
    (sigs : list (gmap string PropertyValue * Z * Z))
  : option DbusToPLDMEvent :=
  match sigs with
  | [] => Some s
  | (props, rc_encode, rc_register) :: rest =>
      s' ← propertiesChanged s m props rc_encode rc_register;
      signals s' m rest
  end.

End bridge.

(** ** Listening for sensor events *)

(** Modelled from the spec: the PDR repository ([pdr_utils::Repo],
    [getRepoByType], [PdrEntry]) is declared outside the sources.  A
    record is reduced to what [listenSensorEvent] reads from it: its PDR
    type and the two bytes of its little-endian [sensor_id] field; the
    repository is the sequence of its records and [getRepoByType] keeps
    the records of one type, in order. *)
Inductive pldm_pdr_types :=
| PLDM_STATE_SENSOR_PDR
| PLDM_OTHER_PDR (type : Z).

Global Instance pldm_pdr_types_eq_dec : EqDecision pldm_pdr_types.
Proof. solve_decision. Defined.

Record PdrRecord := mk_pdr {
  pdr_type : pldm_pdr_types;
  sensor_id_byte0 : Z;
  sensor_id_byte1 : Z
}.

Definition getRepoByType (repo : list PdrRecord) (pdrType : pldm_pdr_types)
  : list PdrRecord :=
  filter (λ r, pdr_type r = pdrType) repo.

(** [LE16TOH] of the two bytes of a little-endian 16-bit field. *)
Definition LE16TOH (byte0 byte1 : Z) : Z := byte0 + 256 * byte1.

(** [const std::vector<uint8_t> pdrTypes{PLDM_STATE_SENSOR_PDR}] *)
Definition pdrTypes : list pldm_pdr_types := [PLDM_STATE_SENSOR_PDR].

(** [sensorHandlers]: the one handler, for [PLDM_STATE_SENSOR_PDR]. *)
Definition sensorHandlers (pdrType : pldm_pdr_types) (sensorId : Z)
    (dbusMaps : gmap Z (list DBusMapping * list (list (Z * PropertyValue))))
  : option (list StateSensorMatch) :=
  match pdrType with
  | PLDM_STATE_SENSOR_PDR => sendStateSensorEvent sensorId dbusMaps
  | PLDM_OTHER_PDR _ => Some []
  end.

(** The [while (pdrRecord)] loop of [listenSensorEvent]: the matches
    appended to [stateSensorMatchs], record after record. *)
Fixpoint listen_records (pdrType : pldm_pdr_types)
    (sensorPDRs : list PdrRecord)
    (dbusMaps : gmap Z (list DBusMapping * list (list (Z * PropertyValue))))
  : option (list StateSensorMatch) :=
  match sensorPDRs with
  | [] => Some []
  | pdr :: rest =>
      let sensorId := LE16TOH (sensor_id_byte0 pdr) (sensor_id_byte1 pdr) in
      made ← sensorHandlers pdrType sensorId dbusMaps;
      more ← listen_records pdrType rest dbusMaps;
      Some (made ++ more)
  end.

(** The [for (auto pdrType : pdrTypes)] loop; an empty selection makes
    the function return. *)
Fixpoint listen_types (types : list pldm_pdr_types) (repo : list PdrRecord)
    (dbusMaps : gmap Z (list DBusMapping * list (list (Z * PropertyValue))))
  : option (list StateSensorMatch) :=
  match types with
  | [] => Some []
  | pdrType :: rest =>
      let sensorPDRs := getRepoByType repo pdrType in
      match sensorPDRs with
      | [] => Some []
      | _ =>
          made ← listen_records pdrType sensorPDRs dbusMaps;
          more ← listen_types rest repo dbusMaps;
          Some (made ++ more)
      end
  end.

(** [DbusToPLDMEvent::listenSensorEvent]: the matches it adds to
    [stateSensorMatchs]. *)
Definition listenSensorEvent (repo : list PdrRecord)
    (dbusMaps : gmap Z (list DBusMapping * list (list (Z * PropertyValue))))
  : option (list StateSensorMatch) :=
  listen_types pdrTypes repo dbusMaps.

End state_sensor.

(** * Specification-side definitions and concrete inputs *)

(** The transfer flag in the specification's words, for position [i] out
    of [N] applicable components. *)
Definition spec_transfer_flag (N i : Z) : Z :=
  if decide (N = 1) then PLDM_START_AND_END
  else if decide (i = 0) then PLDM_START
  else if decide (i = N - 1) then PLDM_END
  else PLDM_MIDDLE.

(** The transfer flag carried by a request buffer. *)
Definition msg_transfer_flag (m : Msg) : option Z :=
  match m with
  | pass_component_table_req flag _ _ _ _ _ _ => Some flag
  | _ => None
  end.

(** The sensor event carried by a request buffer. *)
Definition msg_sensor_event (m : Msg) : option pldm_sensor_event_data :=
  match m with
  | platform_event_message_req _ data => Some data
  | _ => None
  end.

(** The completion code of the reply to a RequestFirmwareData that the
    decoder accepted. *)
Definition fw_data_reply_code (cfg : fw_update.Config)
    (s : fw_update.DeviceUpdater) (offset length_ rc_encode : Z)
  : option pldm_completion_codes :=
  (λ sr, fw_update.completionCode sr.2)
    <$> fw_update.requestFwData cfg s 0 offset length_ rc_encode.

(** A response that indicates an error: none received, a decode failure,
    or a non-zero completion code. *)
Definition is_error_response (r : ResponseMsg) : Prop :=
  no_response r = true ∨ resp_decode_rc r ≠ 0 ∨ resp_completionCode r ≠ 0.

(** A decoded response with completion code 0. *)
Definition ok_response : ResponseMsg := mk_response true 1 0 0.

(** The claim that [cancelUpdateComponent] treats the response [r] like a
    successful one. *)
Definition continues_like_ok (cfg : fw_update.Config)
    (s : fw_update.DeviceUpdater) (eid' : Z) (r : ResponseMsg) : Prop :=
  fw_update.cancelUpdateComponent cfg s eid' r
  = fw_update.cancelUpdateComponent cfg s eid' ok_response.

(** The events by which the device updater learns that the current
    component failed: the data-request timer expires, or a decoded
    TransferComplete, VerifyComplete or ApplyComplete carries a result
    that is not a success. *)
Definition reports_component_failure (e : fw_update.Event) : Prop :=
  match e with
  | fw_update.ev_timer _ _ => True
  | fw_update.ev_transferComplete rc_decode transferResult _ _ =>
      rc_decode = 0 ∧ transferResult ≠ PLDM_FWUP_TRANSFER_SUCCESS
  | fw_update.ev_verifyComplete rc_decode verifyResult _ _ =>
      rc_decode = 0 ∧ verifyResult ≠ PLDM_FWUP_VERIFY_SUCCESS
  | fw_update.ev_applyComplete rc_decode applyResult _ _ =>
      rc_decode = 0 ∧ applyResult ≠ PLDM_FWUP_APPLY_SUCCESS
      ∧ applyResult ≠ PLDM_FWUP_APPLY_SUCCESS_WITH_ACTIVATION_METHOD
  | _ => False
  end.

(** [s'] is [s] advanced to the next component: the cursor moved on by
    one, the status of the new position is true, the UpdateComponent
    request for it is scheduled, and nothing has been handed to the
    pipeline yet. *)
Definition advanced_to_next (s s' : fw_update.DeviceUpdater) : Prop :=
  let i := fw_update.componentIndex s in
  fw_update.componentIndex s' = i + 1 ∧
  fw_update.componentUpdateStatus s' !! (i + 1) = Some true ∧
  fw_update.pldmRequest s'
  = Some (fw_update.defer_sendUpdateComponentRequest (i + 1)) ∧
  fw_update.handler (fw_update.updateManager s')
  = fw_update.handler (fw_update.updateManager s).

(** The sensor events handed to the pipeline so far, oldest first. *)
Definition emitted_events (s : state_sensor.DbusToPLDMEvent)
  : list pldm_sensor_event_data :=
  omap (λ r, msg_sensor_event (req_msg r)) (state_sensor.handler s).


Module examples.
Import fw_update.

(** A package of two components: 64 bytes at offset 32, 96 bytes at
    offset 96; the package bytes are 1, 2, 3, ... *)
Definition comp0 : ComponentImageInfo := mk_comp 10 1 7 1 0 32 64 "v1".
Definition comp1 : ComponentImageInfo := mk_comp 10 2 7 0 0 96 96 "v2".

Definition cfg : Config :=
  mk_config 9 (mk_fdir [0; 1] [] "set") [comp0; comp1]
            {[ (10, 1) := 0; (10, 2) := 1 ]} 64
            ((λ n : nat, Z.of_nat n `mod` 256) <$> seq 1 192) 60.

Definition manager0 : UpdateManager := mk_manager ∅ [] [] 0.

(** The updater as constructed, before [startFwUpdateFlow]. *)
Definition idle : DeviceUpdater := mk_updater 0 ∅ None None true manager0.

(** Mid-update of the first component, its status already recorded. *)
Definition updating0 : DeviceUpdater :=
  mk_updater 0 {[ 0 := true ]} None None true manager0.

(** The first component has failed and its cancellation is pending. *)
Definition failed0 : DeviceUpdater :=
  mk_updater 0 {[ 0 := false ]} None None true manager0.

(** A state sensor with one composite offset, driven by a numeric
    property whose values 10, 20 and 30 stand for the states 3, 5, 7. *)
Definition sensor_match : state_sensor.StateSensorMatch :=
  state_sensor.mk_match 0x0101 0
    (state_sensor.mk_mapping "/xyz/sensor0" "xyz.State" "CurrentState"
                             "uint8_t")
    [(3, state_sensor.pv_uint8 10); (5, state_sensor.pv_uint8 20);
     (7, state_sensor.pv_uint8 30)].

(** The property map of a signal that reports [CurrentState = v]. *)
Definition changed (v : Z) : gmap string state_sensor.PropertyValue :=
  {[ "CurrentState" := state_sensor.pv_uint8 v ]}.

(** The bridge as constructed, and with every instance id of endpoint 9
    in use. *)
Definition bridge0 : state_sensor.DbusToPLDMEvent :=
  state_sensor.mk_bridge ∅ [] ∅.

Definition bridge_exhausted : state_sensor.DbusToPLDMEvent :=
  state_sensor.mk_bridge
    (list_to_set ((λ n : nat, (9, Z.of_nat n)) <$> seq 0 32)) [] ∅.

(** Mid-transfer of the first component: the data-request timer runs. *)
Definition serving0 : DeviceUpdater :=
  mk_updater 0 {[ 0 := true ]} None (Some true) true manager0.

(** RequestUpdate has been answered: the first PassComponentTable send
    is scheduled.  And the state once both components have been passed. *)
Definition table0 : DeviceUpdater :=
  mk_updater 0 ∅ (Some (defer_sendPassCompTableRequest 0)) None true
             manager0.

Definition tables_passed : DeviceUpdater :=
  mk_updater 0 ∅ (Some (defer_sendUpdateComponentRequest 0)) None true
             manager0.

(** The second and last component is being transferred, the first one
    having failed; and the state in which the first component succeeded
    and the cancellation of the failed last one is pending. *)
Definition serving_last : DeviceUpdater :=
  mk_updater 1 {[ 0 := false; 1 := true ]} None (Some true) true manager0.

Definition partly_failed : DeviceUpdater :=
  mk_updater 1 {[ 0 := true; 1 := false ]} None None true manager0.

(** An updater whose endpoint has every instance id in use. *)
Definition exhausted : DeviceUpdater :=
  mk_updater 0 {[ 0 := true ]} None None true
    (mk_manager (list_to_set ((λ n : nat, (9, Z.of_nat n)) <$> seq 0 32))
                [] [] 0).

(** The bridge after the sensor was first seen in state 3. *)
Definition bridge_known : state_sensor.DbusToPLDMEvent :=
  state_sensor.mk_bridge ∅ [] {[ 0x0101 := {[ 0 := 3 ]} ]}.

(** The same sensor behind a mapping declared of type string; it is only
    driven with a numeric value. *)
Definition string_match : state_sensor.StateSensorMatch :=
  state_sensor.mk_match 0x0101 0
    (state_sensor.mk_mapping "/xyz/sensor0" "xyz.State" "CurrentState"
                             "string")
    [(3, state_sensor.pv_string "Enabled || Active")].

(** D-Bus maps: sensor 0x0101 has two composite offsets; sensor 0x0202
    has two D-Bus mappings but a single value mapping.  And a repository
    that holds a record of another type, the state-sensor PDR of a sensor
    without a map (0xABCD), and the state-sensor PDR of sensor 0x0101. *)
Definition dbusMaps
  : gmap Z (list state_sensor.DBusMapping
            * list (list (Z * state_sensor.PropertyValue))) :=
  {[ 0x0101 :=
       ([state_sensor.mk_mapping "/xyz/sensor0" "xyz.State" "CurrentState"
                                 "uint8_t";
         state_sensor.mk_mapping "/xyz/sensor0" "xyz.Power" "PowerState"
                                 "string"],
        [[(3, state_sensor.pv_uint8 10); (5, state_sensor.pv_uint8 20)];
         [(1, state_sensor.pv_string "On"); (2, state_sensor.pv_string "Off")]]);
     0x0202 :=
       ([state_sensor.mk_mapping "/xyz/sensor1" "xyz.State" "CurrentState"
                                 "uint8_t";
         state_sensor.mk_mapping "/xyz/sensor1" "xyz.Power" "PowerState"
                                 "string"],
        [[(3, state_sensor.pv_uint8 10)]]) ]}.

Definition repo : list state_sensor.PdrRecord :=
  [state_sensor.mk_pdr (state_sensor.PLDM_OTHER_PDR 11) 0x01 0x01;
   state_sensor.mk_pdr state_sensor.PLDM_STATE_SENSOR_PDR 0xCD 0xAB;
   state_sensor.mk_pdr state_sensor.PLDM_STATE_SENSOR_PDR 0x01 0x01].

(** No string-typed property occurs in these inputs. *)
Definition no_split (src : string) : list string := [src].

End examples.

(** * Runs and invariants of the device updater *)

(** A run of the event loop over a list of events, oldest first. *)
Fixpoint steps (cfg : fw_update.Config) (s : fw_update.DeviceUpdater)
    (es : list fw_update.Event) : option fw_update.DeviceUpdater :=
  match es with
  | [] => Some s
  | e :: rest => s' ← fw_update.step cfg s e; steps cfg s' rest
  end.

(** Every index below [applicableComponents.size()] designates a
    component image. *)
Definition table_ok (cfg : fw_update.Config) : Prop :=
  ∀ i, 0 ≤ i < fw_update.num_components cfg →
       is_Some (fw_update.component_at cfg i).

(** The component cursor is a valid position, and a scheduled send for a
    component is a send for the current one. *)
Definition cursor_ok (cfg : fw_update.Config) (s : fw_update.DeviceUpdater)
  : Prop :=
  0 ≤ fw_update.componentIndex s < fw_update.num_components cfg ∧
  match fw_update.pldmRequest s with
  | Some (fw_update.defer_sendPassCompTableRequest offset)
  | Some (fw_update.defer_sendUpdateComponentRequest offset) =>
      offset = fw_update.componentIndex s
  | _ => True
  end.

(** A pipeline and an allocator that agree: the pending requests are
    requests of this endpoint with pairwise distinct instance ids, all
    marked in use. *)
Definition hold (cfg : fw_update.Config) (h : list Request)
    (db : gset (Z * Z)) : Prop :=
  NoDup (req_instance_id <$> h) ∧
  ∀ r, r ∈ h →
       req_eid r = fw_update.eid cfg ∧
       (fw_update.eid cfg, req_instance_id r) ∈ db.

Definition pending_hold_ids (cfg : fw_update.Config)
    (s : fw_update.DeviceUpdater) : Prop :=
  hold cfg (fw_update.handler (fw_update.updateManager s))
       (fw_update.instanceIdDb (fw_update.updateManager s)).

(** The pipeline after a send operation that did not fall through a
    failed encode: as before, or one more request under the instance id
    just taken. *)
Definition sent (cfg : fw_update.Config) (s s' : fw_update.DeviceUpdater)
  : Prop :=
  let m := fw_update.updateManager s in
  let m' := fw_update.updateManager s' in
  (fw_update.handler m' = fw_update.handler m
   ∧ fw_update.instanceIdDb m' = fw_update.instanceIdDb m)
  ∨ ∃ i db' cmd msg rc,
      InstanceIdDb_next (fw_update.instanceIdDb m) (fw_update.eid cfg)
      = Some (i, db') ∧
      fw_update.instanceIdDb m' = db' ∧
      fw_update.handler m'
      = registerRequest (fw_update.handler m)
          (mk_request (fw_update.eid cfg) i PLDM_FWUP cmd msg) rc.

(** The encoder succeeds in the send operations that [e] starts
    directly. *)
Definition encode_succeeds (e : fw_update.Event) : Prop :=
  match e with
  | fw_update.ev_startFwUpdateFlow rc_encode _
  | fw_update.ev_deferred rc_encode _ => rc_encode = 0
  | _ => True
  end.

(** [e] is an event the loop cannot deliver in [s]: no send is
    scheduled, no such request is pending, or the timer is not
    running. *)
Definition not_enabled (s : fw_update.DeviceUpdater) (e : fw_update.Event)
  : Prop :=
  match e with
  | fw_update.ev_deferred _ _ => fw_update.pldmRequest s = None
  | fw_update.ev_response n _ =>
      fw_update.handler (fw_update.updateManager s) !! n = None
  | fw_update.ev_timer _ _ => fw_update.reqFwDataTimer s ≠ Some true
  | _ => False
  end.

(** One round of the pass-component-table phase: the scheduled send
    runs, and its response comes back successful. *)
Definition pass_round : list fw_update.Event :=
  [fw_update.ev_deferred 0 0; fw_update.ev_response 0 ok_response].

(** * Properties *)

(** ** Machine arithmetic *)

Lemma size_t_small x : 0 ≤ x < 2 ^ 64 → size_t x = x.
Proof. intros. unfold size_t. by apply Z.mod_small. Qed.

Lemma u32_small x : 0 ≤ x < 2 ^ 32 → u32 x = x.
Proof. intros. unfold u32. by apply Z.mod_small. Qed.

Lemma size_t_range x : 0 ≤ size_t x < 2 ^ 64.
Proof. unfold size_t. apply Z.mod_pos_bound. lia. Qed.

Lemma registerRequest_app h r rc r' :
  registerRequest h r rc = h ++ [r'] → rc = 0 ∧ r' = r.
Proof.
  unfold registerRequest. case_decide as Hrc.
  - intros Heq. apply app_inv_head in Heq. by inversion Heq.
  - intros Heq. apply (f_equal length) in Heq.
    rewrite length_app in Heq. simpl in Heq. lia.
Qed.

Section transfer_flag.
Import fw_update.

Lemma transferFlag_of_spec cfg i :
  1 ≤ num_components cfg →
  transferFlag_of cfg i = spec_transfer_flag (num_components cfg) i.
Proof.
  intros HN. unfold transferFlag_of, spec_transfer_flag.
  rewrite (size_t_small (num_components cfg - 1)); [done|].
  pose proof (size_t_range (Z.of_nat (length (applicableComponents cfg)))).
  unfold num_components in *. lia.
Qed.

(** C9. For every PassCompTable request sent for component position [i]
    out of [N >= 1] applicable components, the transfer flag is
    START_AND_END if [N = 1]; otherwise START if [i = 0]; otherwise END if
    [i = N - 1]; otherwise MIDDLE.  The first part is about any request
    the operation hands to the pipeline: it is a PassComponentTable
    request, it carries a transfer flag when the encoder succeeded, and a
    flag it carries is the specified one.  The second part says that the
    operation does send such a request when an instance id is free and
    [i] designates a component. *)
Theorem C9_pass_comp_table_transfer_flag cfg s i :
  1 ≤ num_components cfg →
  (∀ rc_encode rc_register s' r,
     sendPassCompTableRequest cfg s i rc_encode rc_register = Some s' →
     handler (updateManager s') = handler (updateManager s) ++ [r] →
     req_command r = PLDM_PASS_COMPONENT_TABLE ∧
     (rc_encode = 0 → is_Some (msg_transfer_flag (req_msg r))) ∧
     (∀ flag, msg_transfer_flag (req_msg r) = Some flag →
              flag = spec_transfer_flag (num_components cfg) i)) ∧
  (is_Some (component_at cfg i) →
   is_Some (InstanceIdDb_next (instanceIdDb (updateManager s)) (eid cfg)) →
   ∃ s' r,
     sendPassCompTableRequest cfg s i 0 0 = Some s' ∧
     handler (updateManager s') = handler (updateManager s) ++ [r] ∧
     msg_transfer_flag (req_msg r)
     = Some (spec_transfer_flag (num_components cfg) i)).
Proof.
  intros HN. split.
  - intros rc_encode rc_register s' r Hsend Hh.
    unfold sendPassCompTableRequest, next_instance_id in Hsend.
    cbn [with_pldmRequest updateManager] in Hsend.
    destruct (InstanceIdDb_next _ _) as [[instanceId db]|].
    + destruct (component_at cfg i) as [comp|];
        cbn [mbind option_bind] in Hsend; [|done].
      inversion Hsend; subst s'; clear Hsend.
      assert (Hr : r = mk_request (eid cfg) instanceId PLDM_FWUP
                         PLDM_PASS_COMPONENT_TABLE
                         (encoded rc_encode
                            (pass_component_table_req (transferFlag_of cfg i)
                               (CompClassification comp) (CompIdentifier comp)
                               (classification_index cfg comp)
                               (CompComparisonStamp comp)
                               (u8 (Z.of_nat (String.length (CompVersion comp))))
                               (CompVersion comp)))).
      { unfold free_on_failure in Hh. case_decide; cbn in Hh;
          by apply registerRequest_app in Hh as [_ ->]. }
      subst r. cbn [req_command req_msg]. unfold encoded.
      split; [done|]. split.
      * intros ->. by eexists.
      * case_decide; [|done]. cbn. intros flag [= <-].
        by apply transferFlag_of_spec.
    + inversion Hsend; subst s'. simpl in Hh.
      apply (f_equal length) in Hh. rewrite length_app in Hh.
      simpl in Hh. lia.
  - intros [comp Hcomp] [[instanceId db] Hnext].
    unfold sendPassCompTableRequest, next_instance_id. simpl.
    rewrite Hnext, Hcomp. simpl. eexists _, _. split; [done|].
    simpl. split; [done|]. by rewrite transferFlag_of_spec.
Qed.

Lemma C9_pass_comp_table_transfer_flag_witness :
  1 ≤ num_components examples.cfg ∧
  ∃ s' r,
    sendPassCompTableRequest examples.cfg examples.idle 1 0 0 = Some s' ∧
    handler (updateManager s')
    = handler (updateManager examples.idle) ++ [r] ∧
    msg_transfer_flag (req_msg r) = Some PLDM_END.
Proof.
  assert (HN : 1 ≤ num_components examples.cfg) by (vm_compute; discriminate).
  split; [exact HN|].
  apply (C9_pass_comp_table_transfer_flag examples.cfg examples.idle 1 HN).
  - by eexists.
  - by eexists.
Defined.

End transfer_flag.

(** ** Data transfer *)




Section package_read.
Import fw_update.
Variable cfg : Config.




End package_read.


Section data_transfer.
Import fw_update.

Variable cfg : Config.
Variable s : DeviceUpdater.
Variable comp : ComponentImageInfo.
Hypothesis Hcomp : component_at cfg (componentIndex s) = Some comp.

(** The three validation outcomes of [requestFwData], as equations. *)
Lemma requestFwData_invalid_length offset length_ rc_encode :
  length_ < PLDM_FWUP_BASELINE_TRANSFER_SIZE ∨ length_ > maxTransferSize cfg →
  requestFwData cfg s 0 offset length_ rc_encode
  = Some (s, mk_reply PLDM_FWUP_INVALID_TRANSFER_LENGTH []).
Proof.
  intros Hlen. unfold requestFwData. rewrite Hcomp. simpl.
  by rewrite decide_True.
Qed.

Lemma requestFwData_out_of_range offset length_ rc_encode :
  ¬ (length_ < PLDM_FWUP_BASELINE_TRANSFER_SIZE
     ∨ length_ > maxTransferSize cfg) →
  u32 (offset + length_)
  > u32 (CompSize comp + PLDM_FWUP_BASELINE_TRANSFER_SIZE) →
  requestFwData cfg s 0 offset length_ rc_encode
  = Some (s, mk_reply PLDM_FWUP_DATA_OUT_OF_RANGE []).
Proof.
  intros Hlen Hrange. unfold requestFwData. rewrite Hcomp. simpl.
  rewrite decide_False by done. by rewrite decide_True.
Qed.

Lemma requestFwData_serve offset length_ rc_encode :
  ¬ (length_ < PLDM_FWUP_BASELINE_TRANSFER_SIZE
     ∨ length_ > maxTransferSize cfg) →
  ¬ u32 (offset + length_)
    > u32 (CompSize comp + PLDM_FWUP_BASELINE_TRANSFER_SIZE) →
  ∃ s',
    requestFwData cfg s 0 offset length_ rc_encode
    = Some (s', mk_reply PLDM_SUCCESS
                  (package_read cfg (packageGood s)
                     (u32 (CompLocationOffset comp + offset))
                     (size_t
                        (length_
                         - (if decide (u32 (offset + length_) > CompSize comp)
                            then u32 (u32 (offset + length_) - CompSize comp)
                            else 0)))
                     length_).1).
Proof.
  intros Hlen Hrange. unfold requestFwData. rewrite Hcomp.
  cbn [mbind option_bind decide_rel].
  destruct (decide (0 ≠ 0)) as [?|_]; [done|].
  rewrite decide_False by done. rewrite decide_False by done.
  destruct (package_read cfg _ _ _ _) as [data good]. simpl.
  case_decide; eauto.
Qed.

(** C7. For every decoded RequestFirmwareData(offset, length) the reply
    carries FWUP_INVALID_TRANSFER_LENGTH, and then no payload, exactly
    when [length < BASELINE_TRANSFER_SIZE] or [length > max_transfer_size].
    In particular (with [BASELINE_TRANSFER_SIZE <= max_transfer_size])
    the lengths [BASELINE_TRANSFER_SIZE] and [max_transfer_size] are not
    rejected, while [BASELINE_TRANSFER_SIZE - 1] and
    [max_transfer_size + 1] are. *)
Theorem C7_invalid_transfer_length :
  (∀ offset length_ rc_encode,
     ∃ s' reply,
       requestFwData cfg s 0 offset length_ rc_encode = Some (s', reply) ∧
       (completionCode reply = PLDM_FWUP_INVALID_TRANSFER_LENGTH
        ↔ length_ < PLDM_FWUP_BASELINE_TRANSFER_SIZE
          ∨ length_ > maxTransferSize cfg) ∧
       (completionCode reply = PLDM_FWUP_INVALID_TRANSFER_LENGTH →
        payload reply = [] ∧ s' = s)) ∧
  (∀ offset rc_encode,
     PLDM_FWUP_BASELINE_TRANSFER_SIZE ≤ maxTransferSize cfg →
     fw_data_reply_code cfg s offset PLDM_FWUP_BASELINE_TRANSFER_SIZE
                        rc_encode
     ≠ Some PLDM_FWUP_INVALID_TRANSFER_LENGTH ∧
     fw_data_reply_code cfg s offset (maxTransferSize cfg) rc_encode
     ≠ Some PLDM_FWUP_INVALID_TRANSFER_LENGTH) ∧
  (∀ offset rc_encode,
     fw_data_reply_code cfg s offset
                        (PLDM_FWUP_BASELINE_TRANSFER_SIZE - 1) rc_encode
     = Some PLDM_FWUP_INVALID_TRANSFER_LENGTH ∧
     fw_data_reply_code cfg s offset (maxTransferSize cfg + 1) rc_encode
     = Some PLDM_FWUP_INVALID_TRANSFER_LENGTH).
Proof.
  assert (Hall : ∀ offset length_ rc_encode,
     ∃ s' reply,
       requestFwData cfg s 0 offset length_ rc_encode = Some (s', reply) ∧
       (completionCode reply = PLDM_FWUP_INVALID_TRANSFER_LENGTH
        ↔ length_ < PLDM_FWUP_BASELINE_TRANSFER_SIZE
          ∨ length_ > maxTransferSize cfg) ∧
       (completionCode reply = PLDM_FWUP_INVALID_TRANSFER_LENGTH →
        payload reply = [] ∧ s' = s)).
  { intros offset length_ rc_encode.
    destruct (decide (length_ < PLDM_FWUP_BASELINE_TRANSFER_SIZE
                      ∨ length_ > maxTransferSize cfg)) as [Hlen|Hlen].
    - eexists _, _. split; [by apply requestFwData_invalid_length|].
      simpl. split; [tauto|done].
    - destruct (decide (u32 (offset + length_)
                        > u32 (CompSize comp
                               + PLDM_FWUP_BASELINE_TRANSFER_SIZE)))
        as [Hrange|Hrange].
      + eexists _, _. split; [by apply requestFwData_out_of_range|].
        simpl. split; [split; [done|tauto]|done].
      + destruct (requestFwData_serve offset length_ rc_encode Hlen Hrange)
          as [s' Hs'].
        eexists _, _. split; [exact Hs'|].
        simpl. split; [split; [done|tauto]|done]. }
  split; [exact Hall|]. split.
  - intros offset rc_encode Hmax. unfold fw_data_reply_code. split.
    + destruct (Hall offset PLDM_FWUP_BASELINE_TRANSFER_SIZE rc_encode)
        as (s' & reply & -> & Hiff & _).
      simpl. intros [= Hcode]. apply Hiff in Hcode. lia.
    + destruct (Hall offset (maxTransferSize cfg) rc_encode)
        as (s' & reply & -> & Hiff & _).
      simpl. intros [= Hcode]. apply Hiff in Hcode. lia.
  - intros offset rc_encode. unfold fw_data_reply_code.
    rewrite !requestFwData_invalid_length by lia. done.
Qed.




End data_transfer.

(** C6, at the input where it fails.  [offset = 0xFFFFFFF0] and
    [length = 32] satisfy [BASELINE <= length <= max_transfer_size] and,
    as exact integers, [offset + length > compSize + BASELINE] with
    [compSize = 64]; the responder nevertheless serves the request with
    completion code SUCCESS, because the 32-bit sum [offset + length]
    wraps around to 16. *)
Theorem C6_wrapped_request_is_served :
  PLDM_FWUP_BASELINE_TRANSFER_SIZE ≤ 32 ≤ fw_update.maxTransferSize examples.cfg ∧
  0xFFFFFFF0 + 32
  > fw_update.CompSize examples.comp0 + PLDM_FWUP_BASELINE_TRANSFER_SIZE ∧
  fw_data_reply_code examples.cfg examples.updating0 0xFFFFFFF0 32 0
  = Some PLDM_SUCCESS.
Proof. vm_compute. repeat split; congruence. Qed.



Lemma C7_invalid_transfer_length_witness :
  fw_data_reply_code examples.cfg examples.updating0 0 31 0
  = Some PLDM_FWUP_INVALID_TRANSFER_LENGTH ∧
  fw_data_reply_code examples.cfg examples.updating0 0 65 0
  = Some PLDM_FWUP_INVALID_TRANSFER_LENGTH.
Proof.
  exact (proj2 (proj2 (C7_invalid_transfer_length examples.cfg
                         examples.updating0 examples.comp0 eq_refl)) 0 0).
Defined.

(** ** Encode failures in the send operations *)

Section encode_failure.
Import fw_update.

Variable cfg : Config.

Lemma InstanceIdDb_next_fresh db e i db' :
  InstanceIdDb_next db e = Some (i, db') →
  ((e, i) ∉ db) ∧ db' = {[ (e, i) ]} ∪ db ∧ 0 ≤ i < 32.
Proof.
  unfold InstanceIdDb_next.
  destruct (List.find _ _) as [j|] eqn:Hfind; [|done].
  intros [= <- <-]. apply find_some in Hfind as [Hin Hfree].
  apply bool_decide_eq_true in Hfree.
  apply list_elem_of_In, list_elem_of_fmap in Hin as (n & -> & Hn).
  apply elem_of_seq in Hn. split; [done|]. split; [done|lia].
Qed.

Lemma InstanceIdDb_next_free db e i db' :
  InstanceIdDb_next db e = Some (i, db') → InstanceIdDb_free db' e i = db.
Proof.
  intros Hnext. apply InstanceIdDb_next_fresh in Hnext as (Hfresh & -> & _).
  unfold InstanceIdDb_free. apply set_eq. intros x.
  rewrite elem_of_difference, elem_of_union, elem_of_singleton. split.
  - intros [[->|Hx] Hne]; [by destruct Hne|done].
  - intros Hx. split; [by right|]. by intros ->.
Qed.

Lemma encoded_failure rc_encode m : rc_encode ≠ 0 → encoded rc_encode m = unencoded.
Proof. intros. unfold encoded. by rewrite decide_False. Qed.

Lemma free_on_failure_failure s i rc_encode :
  rc_encode ≠ 0 →
  free_on_failure cfg s i rc_encode
  = with_manager s
      (with_instanceIdDb (updateManager s)
         (InstanceIdDb_free (instanceIdDb (updateManager s)) (eid cfg) i)).
Proof. intros. unfold free_on_failure. by rewrite decide_True. Qed.

(** After a failed encode, [startFwUpdateFlow] has returned the instance
    id to the allocator and has nevertheless handed the request to the
    pipeline under that id. *)
Lemma startFwUpdateFlow_encode_failure s rc_encode rc_register i db :
  InstanceIdDb_next (instanceIdDb (updateManager s)) (eid cfg)
  = Some (i, db) →
  rc_encode ≠ 0 →
  let s' := startFwUpdateFlow cfg s rc_encode rc_register in
  instanceIdDb (updateManager s') = instanceIdDb (updateManager s) ∧
  handler (updateManager s')
  = registerRequest (handler (updateManager s))
      (mk_request (eid cfg) i PLDM_FWUP PLDM_REQUEST_UPDATE unencoded)
      rc_register.
Proof.
  intros Hnext Hrc. unfold startFwUpdateFlow, next_instance_id.
  rewrite Hnext, encoded_failure, free_on_failure_failure by done. simpl.
  by rewrite (InstanceIdDb_next_free _ _ _ _ Hnext).
Qed.

Lemma sendPassCompTableRequest_encode_failure s offset rc_encode
    rc_register i db :
  InstanceIdDb_next (instanceIdDb (updateManager s)) (eid cfg)
  = Some (i, db) →
  is_Some (component_at cfg offset) →
  rc_encode ≠ 0 →
  ∃ s', sendPassCompTableRequest cfg s offset rc_encode rc_register
        = Some s' ∧
    instanceIdDb (updateManager s') = instanceIdDb (updateManager s) ∧
    handler (updateManager s')
    = registerRequest (handler (updateManager s))
        (mk_request (eid cfg) i PLDM_FWUP PLDM_PASS_COMPONENT_TABLE
                    unencoded)
        rc_register.
Proof.
  intros Hnext [comp Hcomp] Hrc.
  unfold sendPassCompTableRequest, next_instance_id.
  cbn [with_pldmRequest updateManager].
  rewrite Hnext, Hcomp. cbn [mbind option_bind].
  rewrite encoded_failure, free_on_failure_failure by done.
  simpl. eexists. split; [done|]. simpl.
  by rewrite (InstanceIdDb_next_free _ _ _ _ Hnext).
Qed.

Lemma sendUpdateComponentRequest_encode_failure s offset rc_encode
    rc_register i db :
  InstanceIdDb_next (instanceIdDb (updateManager s)) (eid cfg)
  = Some (i, db) →
  is_Some (component_at cfg offset) →
  rc_encode ≠ 0 →
  ∃ s', sendUpdateComponentRequest cfg s offset rc_encode rc_register
        = Some s' ∧
    instanceIdDb (updateManager s') = instanceIdDb (updateManager s) ∧
    handler (updateManager s')
    = registerRequest (handler (updateManager s))
        (mk_request (eid cfg) i PLDM_FWUP PLDM_UPDATE_COMPONENT unencoded)
        rc_register.
Proof.
  intros Hnext [comp Hcomp] Hrc.
  unfold sendUpdateComponentRequest, next_instance_id.
  cbn [with_pldmRequest updateManager].
  rewrite Hnext, Hcomp. cbn [mbind option_bind].
  rewrite encoded_failure, free_on_failure_failure by done.
  simpl. eexists. split; [done|]. simpl.
  by rewrite (InstanceIdDb_next_free _ _ _ _ Hnext).
Qed.

Lemma sendActivateFirmwareRequest_encode_failure s rc_encode rc_register
    i db :
  InstanceIdDb_next (instanceIdDb (updateManager s)) (eid cfg)
  = Some (i, db) →
  rc_encode ≠ 0 →
  let s' := sendActivateFirmwareRequest cfg s rc_encode rc_register in
  instanceIdDb (updateManager s') = instanceIdDb (updateManager s) ∧
  handler (updateManager s')
  = registerRequest (handler (updateManager s))
      (mk_request (eid cfg) i PLDM_FWUP PLDM_ACTIVATE_FIRMWARE unencoded)
      rc_register.
Proof.
  intros Hnext Hrc. unfold sendActivateFirmwareRequest, next_instance_id.
  cbn [with_pldmRequest updateManager].
  rewrite Hnext, encoded_failure, free_on_failure_failure by done. simpl.
  by rewrite (InstanceIdDb_next_free _ _ _ _ Hnext).
Qed.

(** [sendCancelUpdateComponentRequest] is the send operation of the
    device updater that does abandon the request: the id is back in the
    pool and nothing reaches the pipeline. *)
Lemma sendCancelUpdateComponentRequest_encode_failure s rc_encode
    rc_register :
  rc_encode ≠ 0 →
  let s' := sendCancelUpdateComponentRequest cfg s rc_encode rc_register in
  instanceIdDb (updateManager s') = instanceIdDb (updateManager s) ∧
  handler (updateManager s') = handler (updateManager s).
Proof.
  intros Hrc. unfold sendCancelUpdateComponentRequest, next_instance_id.
  cbn [with_pldmRequest updateManager].
  destruct (InstanceIdDb_next _ _) as [[i db]|] eqn:Hnext; [|done].
  rewrite decide_True, free_on_failure_failure by done. simpl.
  by rewrite (InstanceIdDb_next_free _ _ _ _ Hnext).
Qed.

End encode_failure.

(** So does [sendEventMsg] of the sensor-event bridge. *)
Lemma sendEventMsg_encode_failure mctp_eid s eventType data rc_encode
    rc_register :
  rc_encode ≠ 0 →
  state_sensor.sendEventMsg mctp_eid s eventType data rc_encode rc_register
  = s.
Proof.
  intros Hrc. unfold state_sensor.sendEventMsg.
  destruct (InstanceIdDb_next _ _) as [[i db]|] eqn:Hnext; [|done].
  rewrite decide_True by done.
  rewrite (InstanceIdDb_next_free _ _ _ _ Hnext). by destruct s.
Qed.

(** C1, at the input where it fails.  With instance id 0 free and the
    encoder of RequestUpdate returning an error (status 2),
    [startFwUpdateFlow] frees the id and then still registers the
    request, unencoded, under the freed id.  The operation is not
    abandoned. *)
Theorem C1_failed_encode_still_registers :
  let s' := fw_update.startFwUpdateFlow examples.cfg examples.idle 2 0 in
  fw_update.instanceIdDb (fw_update.updateManager s') = ∅ ∧
  fw_update.handler (fw_update.updateManager s')
  = [mk_request 9 0 PLDM_FWUP PLDM_REQUEST_UPDATE unencoded].
Proof.
  pose proof (startFwUpdateFlow_encode_failure examples.cfg examples.idle
                2 0 0 _ eq_refl ltac:(done)) as [Hdb Hh].
  split; [exact Hdb|exact Hh].
Qed.

(** ** Response handlers *)

Section response_handlers.
Import fw_update.

(** C2, as the code behaves.  For an UpdateComponent response that
    decodes successfully and carries a non-zero completion code the
    handler returns with the state untouched: in particular no
    [updateDeviceCompletion(eid, false)] has been recorded, whereas the
    claim requires one. *)
Theorem C2_nonzero_completion_code_not_reported s eid' r :
  no_response r = false →
  resp_decode_rc r = 0 →
  resp_completionCode r ≠ 0 →
  updateComponent s eid' r = s ∧
  deviceCompletion (updateManager (updateComponent s eid' r))
  = deviceCompletion (updateManager s).
Proof.
  intros Hresp Hrc Hcc. unfold updateComponent. rewrite Hresp.
  by repeat case_decide.
Qed.

Lemma C2_nonzero_completion_code_not_reported_witness :
  deviceCompletion
    (updateManager
       (updateComponent examples.updating0 9 (mk_response true 3 0 1)))
  = [].
Proof.
  exact (proj2 (C2_nonzero_completion_code_not_reported examples.updating0 9
                  (mk_response true 3 0 1) eq_refl eq_refl ltac:(done))).
Defined.

(** The sibling handlers do report the failure on the same response. *)
Lemma requestUpdate_nonzero_completion_code s eid' r :
  no_response r = false → resp_decode_rc r = 0 →
  resp_completionCode r ≠ 0 →
  requestUpdate s eid' r = updateDeviceCompletion s eid' false.
Proof.
  intros Hresp Hrc Hcc. unfold requestUpdate. rewrite Hresp.
  rewrite decide_False by (by intros []). by rewrite decide_True.
Qed.

Lemma activateFirmware_nonzero_completion_code s eid' r :
  no_response r = false → resp_decode_rc r = 0 →
  resp_completionCode r ≠ 0 →
  activateFirmware s eid' r = updateDeviceCompletion s eid' false.
Proof.
  intros Hresp Hrc Hcc. unfold activateFirmware. rewrite Hresp.
  rewrite decide_False by (by intros []). by rewrite decide_True.
Qed.

Variable cfg : Config.

(** C5 as amended.  A CancelUpdateComponent response that indicates an
    error (no response, decode failure, non-zero completion code) leaves
    the device updater exactly as it was: nothing is advanced, scheduled
    or reported.  Only a successful response advances: at [i < N - 1] to
    UpdateComponent(i+1) with its status set; at [i = N - 1] to
    ActivateFirmware when some status is true, else device completion is
    reported as failed. *)
Theorem C5_cancel_error_response_stops s eid' r :
  (is_error_response r → cancelUpdateComponent cfg s eid' r = s) ∧
  (¬ is_error_response r →
   let s' := cancelUpdateComponent cfg s eid' r in
   (componentIndex s < num_components cfg - 1 →
    componentIndex s' = componentIndex s + 1 ∧
    componentUpdateStatus s'
    = <[componentIndex s + 1 := true]> (componentUpdateStatus s) ∧
    pldmRequest s'
    = Some (defer_sendUpdateComponentRequest (componentIndex s + 1)) ∧
    updateManager s' = updateManager s) ∧
   (1 ≤ num_components cfg →
    componentIndex s = num_components cfg - 1 →
    if any_status_true (componentUpdateStatus s)
    then pldmRequest s' = Some defer_sendActivateFirmwareRequest
         ∧ updateManager s' = updateManager s
    else s' = updateDeviceCompletion s eid' false)).
Proof.
  assert (HN : 0 ≤ num_components cfg < 2 ^ 64) by apply size_t_range.
  unfold is_error_response, cancelUpdateComponent. split.
  - intros Herr. destruct (no_response r); [done|].
    repeat case_decide; try done; by destruct Herr as [?|[?|?]].
  - intros Hok. destruct (no_response r); [by destruct Hok; left|].
    rewrite decide_False by tauto. rewrite decide_False by tauto.
    cbn zeta. split.
    + intros Hi. rewrite decide_False; [done|].
      destruct (decide (1 ≤ num_components cfg)).
      * rewrite size_t_small by lia. lia.
      * pose proof (size_t_range (num_components cfg - 1)).
        replace (num_components cfg) with 0 in * by lia.
        intros Heq. rewrite Heq in Hi. vm_compute in Hi. done.
    + intros H1 Hi. rewrite size_t_small by lia.
      rewrite decide_True by done.
      by destruct (any_status_true _).
Qed.

End response_handlers.

Lemma C5_cancel_error_response_stops_witness :
  fw_update.cancelUpdateComponent examples.cfg examples.failed0 9
                                  (mk_response true 1 0 5)
  = examples.failed0.
Proof.
  apply (C5_cancel_error_response_stops examples.cfg examples.failed0 9
           (mk_response true 1 0 5)).
  right. right. done.
Defined.

(** C5 as stated fails: at position 0 of 2 a missing response does not
    continue like a successful one. *)
Lemma C5_error_response_does_not_continue :
  ¬ continues_like_ok examples.cfg examples.failed0 9
      (mk_response false 0 0 0).
Proof. unfold continues_like_ok. vm_compute. discriminate. Qed.

(** ** Component status *)

Section component_status.
Import fw_update.

Variable cfg : Config.

(** The send operations leave the component cursor and the recorded
    statuses alone. *)
Lemma startFwUpdateFlow_status s rc_encode rc_register :
  componentUpdateStatus (startFwUpdateFlow cfg s rc_encode rc_register)
  = componentUpdateStatus s.
Proof.
  unfold startFwUpdateFlow, next_instance_id, free_on_failure.
  destruct (InstanceIdDb_next _ _) as [[i db]|]; [|done]. by case_decide.
Qed.

Lemma sendPassCompTableRequest_status s offset rc_encode rc_register s' :
  sendPassCompTableRequest cfg s offset rc_encode rc_register = Some s' →
  componentUpdateStatus s' = componentUpdateStatus s.
Proof.
  unfold sendPassCompTableRequest, next_instance_id, free_on_failure.
  cbn [with_pldmRequest updateManager].
  destruct (InstanceIdDb_next _ _) as [[i db]|]; [|by intros [= <-]].
  destruct (component_at cfg offset); [|done].
  cbn [mbind option_bind]. intros [= <-]. by case_decide.
Qed.

Lemma sendUpdateComponentRequest_status s offset rc_encode rc_register s' :
  sendUpdateComponentRequest cfg s offset rc_encode rc_register = Some s' →
  componentUpdateStatus s' = componentUpdateStatus s ∧
  componentIndex s' = componentIndex s.
Proof.
  unfold sendUpdateComponentRequest, next_instance_id, free_on_failure.
  cbn [with_pldmRequest updateManager].
  destruct (InstanceIdDb_next _ _) as [[i db]|]; [|by intros [= <-]].
  destruct (component_at cfg offset); [|done].
  cbn [mbind option_bind]. intros [= <-]. by case_decide.
Qed.

Lemma sendActivateFirmwareRequest_status s rc_encode rc_register :
  componentUpdateStatus (sendActivateFirmwareRequest cfg s rc_encode
                                                     rc_register)
  = componentUpdateStatus s.
Proof.
  unfold sendActivateFirmwareRequest, next_instance_id, free_on_failure.
  cbn [with_pldmRequest updateManager].
  destruct (InstanceIdDb_next _ _) as [[i db]|]; [|done]. by case_decide.
Qed.

Lemma sendCancelUpdateComponentRequest_status s rc_encode rc_register :
  componentUpdateStatus (sendCancelUpdateComponentRequest cfg s rc_encode
                                                          rc_register)
  = componentUpdateStatus s.
Proof.
  unfold sendCancelUpdateComponentRequest, next_instance_id, free_on_failure.
  cbn [with_pldmRequest updateManager].
  destruct (InstanceIdDb_next _ _) as [[i db]|]; [|done].
  by repeat case_decide.
Qed.

(** A status that is [false] after a handler set one to [true], or
    cleared the table, was [false] before. *)
Lemma lookup_insert_true_false (st : gmap Z bool) j k :
  <[j := true]> st !! k = Some false → st !! k = Some false.
Proof.
  destruct (decide (j = k)) as [->|Hne].
  - by rewrite lookup_insert_eq.
  - by rewrite lookup_insert_ne.
Qed.

Lemma lookup_insert_false (st : gmap Z bool) j k :
  <[j := false]> st !! k = Some false → st !! k = Some false ∨ k = j.
Proof.
  destruct (decide (j = k)) as [->|Hne]; [by right|].
  rewrite lookup_insert_ne by done. by left.
Qed.

Lemma component_failed_status s rc_encode rc_register :
  componentUpdateStatus (component_failed cfg s rc_encode rc_register)
  = <[componentIndex s := false]> (componentUpdateStatus s).
Proof.
  unfold component_failed. by rewrite sendCancelUpdateComponentRequest_status.
Qed.

Lemma reqFwDataTimer_expired_status s rc_encode rc_register :
  componentUpdateStatus (reqFwDataTimer_expired cfg s rc_encode rc_register)
  = <[componentIndex s := false]> (componentUpdateStatus s).
Proof.
  unfold reqFwDataTimer_expired. cbn [updateDeviceCompletion].
  unfold updateDeviceCompletion. cbn [with_manager componentUpdateStatus].
  by rewrite sendCancelUpdateComponentRequest_status.
Qed.

(** A status becomes [false] only through a timer expiry or a reported
    transfer, verify or apply failure, and then for the current
    component. *)
Lemma status_false_only_on_failure s e s' k :
  step cfg s e = Some s' →
  componentUpdateStatus s' !! k = Some false →
  componentUpdateStatus s !! k = Some false
  ∨ (k = componentIndex s ∧ reports_component_failure e).
Proof.
  destruct e as [rc_e rc_r|rc_e rc_r|n r|rc_d o l rc_e|rc_d res rc_e rc_r
                |rc_d res rc_e rc_r|rc_d res rc_e rc_r|rc_e rc_r];
    cbn [step reports_component_failure].
  - intros [= <-]. rewrite startFwUpdateFlow_status. by left.
  - unfold run_deferred. destruct (pldmRequest s) as [[off|off|]|]; [..|done].
    + intros ->%sendPassCompTableRequest_status. by left.
    + intros [-> _]%sendUpdateComponentRequest_status. by left.
    + intros [= <-]. rewrite sendActivateFirmwareRequest_status. by left.
  - unfold deliver. destruct (handler (updateManager s) !! n) as [req|];
      [|done]. cbn [mbind option_bind].
    destruct (req_command req); intros [= <-]; [by left|..];
      unfold requestUpdate, passCompTable, updateComponent, activateFirmware,
        cancelUpdateComponent;
      destruct (no_response r); try (by left);
      repeat case_decide; try (by left);
      try destruct (any_status_true _); cbn; try (by left);
      try (intros ?%lookup_insert_true_false; by left).
  - unfold requestFwData. case_decide; [intros [= <-]; by left|].
    destruct (component_at cfg (componentIndex s)); [|done].
    cbn [mbind option_bind fmap option_fmap option_map].
    repeat case_decide; try (intros [= <-]; by left).
    all: destruct (package_read _ _ _ _ _); repeat case_decide;
      intros [= <-]; by left.
  - unfold transferComplete. cbn [with_reqFwDataTimer componentIndex].
    case_decide; [intros [= <-]; by left|].
    destruct (component_at cfg (componentIndex s)); [|done].
    cbn [mbind option_bind]. case_decide; intros [= <-]; [by left|].
    cbn [fst]. rewrite component_failed_status. cbn.
    intros [ ? | -> ]%lookup_insert_false; [by left|right]. split; [done|].
    split; [|done]. by destruct (decide (rc_d = 0)); [|tauto].
  - unfold verifyComplete.
    case_decide; [intros [= <-]; by left|].
    destruct (component_at cfg (componentIndex s)); [|done].
    cbn [mbind option_bind]. case_decide; intros [= <-]; [by left|].
    cbn [fst]. rewrite component_failed_status.
    intros [ ? | -> ]%lookup_insert_false; [by left|right]. split; [done|].
    split; [|done]. by destruct (decide (rc_d = 0)); [|tauto].
  - unfold applyComplete.
    case_decide; [intros [= <-]; by left|].
    destruct (component_at cfg (componentIndex s)); [|done].
    cbn [mbind option_bind].
    case_decide as Hres.
    + case_decide; intros [= <-]; cbn.
      * intros ?%lookup_insert_true_false. by rewrite lookup_empty in *.
      * intros ?%lookup_insert_true_false. by left.
    + intros [= <-]. cbn [fst]. rewrite component_failed_status.
      intros [ ? | -> ]%lookup_insert_false; [by left|right]. split; [done|].
      split; [by destruct (decide (rc_d = 0)); [|tauto]|]. tauto.
  - destruct (reqFwDataTimer s) as [[]|]; [|done..]. intros [= <-].
    rewrite reqFwDataTimer_expired_status. cbn.
    intros [ ? | -> ]%lookup_insert_false; [by left|by right].
Qed.

Lemma not_last_component i :
  i < num_components cfg - 1 → i ≠ size_t (num_components cfg - 1).
Proof.
  intros Hi Heq. pose proof (size_t_range (num_components cfg - 1)).
  assert (HN : 0 ≤ num_components cfg < 2 ^ 64) by apply size_t_range.
  destruct (decide (1 ≤ num_components cfg)).
  - rewrite size_t_small in Heq by lia. lia.
  - lia.
Qed.

(** C10. When the device updater advances from component position [i]
    to [i + 1] (a decoded ApplyComplete with a success result, or a
    successful CancelUpdateComponent response, at [i < N - 1]), the
    status of [i + 1] is set to true and the UpdateComponent request for
    [i + 1] is only scheduled, not yet sent; when the scheduled send
    runs, the status of [i + 1] is still true.  A status becomes false
    only by a timer expiry or a reported transfer, verify or apply
    failure, and only for the component that is current then. *)
Theorem C10_status_presumed_successful s :
  (∀ comp applyResult rc_encode rc_register,
     component_at cfg (componentIndex s) = Some comp →
     applyResult = PLDM_FWUP_APPLY_SUCCESS
     ∨ applyResult = PLDM_FWUP_APPLY_SUCCESS_WITH_ACTIVATION_METHOD →
     componentIndex s < num_components cfg - 1 →
     ∃ s', applyComplete cfg s 0 applyResult rc_encode rc_register
           = Some (s', PLDM_SUCCESS) ∧
           advanced_to_next s s') ∧
  (∀ eid' r,
     ¬ is_error_response r →
     componentIndex s < num_components cfg - 1 →
     advanced_to_next s (cancelUpdateComponent cfg s eid' r)) ∧
  (∀ s' rc_encode rc_register s'',
     advanced_to_next s s' →
     step cfg s' (ev_deferred rc_encode rc_register) = Some s'' →
     sendUpdateComponentRequest cfg s' (componentIndex s + 1)
                                rc_encode rc_register = Some s'' ∧
     componentUpdateStatus s'' !! (componentIndex s + 1) = Some true) ∧
  (∀ e s' k,
     step cfg s e = Some s' →
     componentUpdateStatus s' !! k = Some false →
     componentUpdateStatus s !! k = Some false
     ∨ (k = componentIndex s ∧ reports_component_failure e)).
Proof.
  split; [|split; [|split]].
  - intros comp res rc_encode rc_register Hcomp Hres Hi.
    apply not_last_component in Hi.
    unfold applyComplete. rewrite Hcomp. cbn [mbind option_bind].
    destruct (decide (0 ≠ 0)) as [?|_]; [done|].
    rewrite decide_True by done.
    cbn [updateActivationProgress with_manager componentIndex].
    rewrite decide_False by done.
    eexists. split; [done|]. unfold advanced_to_next. cbn.
    by rewrite lookup_insert_eq.
  - intros eid' r Hok Hi. apply not_last_component in Hi.
    unfold is_error_response in Hok. unfold cancelUpdateComponent.
    destruct (no_response r); [by destruct Hok; left|].
    rewrite decide_False by tauto. rewrite decide_False by tauto.
    rewrite decide_False by done.
    unfold advanced_to_next. cbn. by rewrite lookup_insert_eq.
  - intros s' rc_encode rc_register s'' (Hidx & Hst & Hreq & _).
    cbn [step]. unfold run_deferred. rewrite Hreq. intros Hsend.
    split; [done|].
    apply sendUpdateComponentRequest_status in Hsend as [-> _]. done.
  - apply status_false_only_on_failure.
Qed.

End component_status.

Lemma C10_status_presumed_successful_witness :
  ∃ s',
    fw_update.applyComplete examples.cfg examples.updating0 0 0 0 0
    = Some (s', PLDM_SUCCESS) ∧
    advanced_to_next examples.updating0 s'.
Proof.
  apply (proj1 (C10_status_presumed_successful examples.cfg
                  examples.updating0) examples.comp0 0 0 0 eq_refl).
  - by left.
  - vm_compute. done.
Defined.

(** ** Sensor events and the sensor cache *)

Section sensor_cache.
Import state_sensor.

Variable mctp_eid : Z.
Variable split : string → list string.

(** [sendEventMsg] never touches the sensor cache. *)
Lemma sendEventMsg_cache s eventType data rc_encode rc_register :
  sensorCacheMap (sendEventMsg mctp_eid s eventType data rc_encode
                               rc_register)
  = sensorCacheMap s.
Proof.
  unfold sendEventMsg.
  destruct (InstanceIdDb_next _ _) as [[i db]|]; [|done]. by case_decide.
Qed.

(** What it hands to the pipeline: nothing, or the one event. *)
Lemma sendEventMsg_emitted s eventType data rc_encode rc_register :
  let s' := sendEventMsg mctp_eid s eventType data rc_encode rc_register in
  emitted_events s' = emitted_events s
  ∨ emitted_events s' = emitted_events s ++ [data].
Proof.
  unfold sendEventMsg, emitted_events.
  destruct (InstanceIdDb_next _ _) as [[i db]|]; [|by left].
  case_decide; [by left|]. cbn. unfold registerRequest.
  case_decide; [right|by left]. by rewrite omap_app.
Qed.


(** When an entry of the value mapping matches, the cache is written with
    the state reported as previous; otherwise the bridge is unchanged. *)
Lemma match_loop_written s m incoming entries rc_encode rc_register s' :
  match_loop mctp_eid split s m incoming entries rc_encode rc_register
  = Some s' →
  s' = s
  ∨ ∃ itr, itr ∈ entries ∧
      sensorCacheMap s'
      = sensorCacheMap
          (updateSensorCacheMaps s (match_sensorId m) (match_offset m)
             (previous_state s (match_sensorId m) (match_offset m) itr.1)).
Proof.
  induction entries as [|itr rest IH]; cbn [match_loop].
  - intros [= <-]. by left.
  - destruct (findValue split (match_dbusMapping m) itr.2 incoming)
      as [[]|]; cbn [mbind option_bind]; [| |done].
    + intros [= <-]. right. exists itr. split; [by left|].
      cbn [updateSensorCacheMaps sensorCacheMap].
      by rewrite sendEventMsg_cache.
    + intros [->|(itr' & Hin & ->)]%IH; [by left|right].
      exists itr'. split; [by right|done].
Qed.


(** Once the cache holds a known state for (sensor, offset), every later
    signal reports that state as previous and writes it back: the entry
    never changes again. *)
Lemma previous_state_known s sensorId offset newState :
  cache_at (sensorCacheMap s) sensorId offset ≠ PLDM_SENSOR_UNKNOWN →
  previous_state s sensorId offset newState
  = cache_at (sensorCacheMap s) sensorId offset.
Proof.
  intros Hknown. unfold previous_state.
  assert (is_Some (sensorCacheMap s !! sensorId)) as Hsome.
  { unfold cache_at in Hknown.
    destruct (sensorCacheMap s !! sensorId); [by eexists|done]. }
  rewrite bool_decide_eq_true_2 by done.
  apply Z.eqb_neq in Hknown. by rewrite Hknown.
Qed.

Lemma updateSensorCacheMaps_cache_at s sensorId offset v :
  cache_at (sensorCacheMap (updateSensorCacheMaps s sensorId offset v))
           sensorId offset = v.
Proof.
  unfold cache_at, updateSensorCacheMaps. cbn.
  by rewrite !lookup_insert_eq.
Qed.

Lemma propertiesChanged_frozen s m props rc_encode rc_register s' :
  cache_at (sensorCacheMap s) (match_sensorId m) (match_offset m)
  ≠ PLDM_SENSOR_UNKNOWN →
  propertiesChanged mctp_eid split s m props rc_encode rc_register
  = Some s' →
  cache_at (sensorCacheMap s') (match_sensorId m) (match_offset m)
  = cache_at (sensorCacheMap s) (match_sensorId m) (match_offset m) ∧
  ∀ data, emitted_events s' = emitted_events s ++ [data] →
          event_class_2 data
          = cache_at (sensorCacheMap s) (match_sensorId m) (match_offset m).
Proof.
  intros Hknown. unfold propertiesChanged.
  destruct (props !! propertyName (match_dbusMapping m)) as [incoming|].
  2:{ intros [= <-]. split; [done|]. intros data Heq.
      apply (f_equal length) in Heq. rewrite length_app in Heq.
      simpl in Heq. lia. }
  induction (match_dbusValueMapping m) as [|itr rest IH]; cbn [match_loop].
  - intros [= <-]. split; [done|]. intros data Heq.
    apply (f_equal length) in Heq. rewrite length_app in Heq.
    simpl in Heq. lia.
  - destruct (findValue split (match_dbusMapping m) itr.2 incoming)
      as [[]|]; cbn [mbind option_bind]; [|exact IH|done].
    intros [= <-]. rewrite previous_state_known by done.
    split; [apply updateSensorCacheMaps_cache_at|].
    intros data. unfold emitted_events at 1. cbn [updateSensorCacheMaps handler].
    fold (emitted_events (sendEventMsg mctp_eid s PLDM_SENSOR_EVENT
      (mk_sensor_event (match_sensorId m) PLDM_STATE_SENSOR_STATE
         (u8 (match_offset m)) itr.1
         (cache_at (sensorCacheMap s) (match_sensorId m) (match_offset m)))
      rc_encode rc_register)).
    destruct (sendEventMsg_emitted s PLDM_SENSOR_EVENT
      (mk_sensor_event (match_sensorId m) PLDM_STATE_SENSOR_STATE
         (u8 (match_offset m)) itr.1
         (cache_at (sensorCacheMap s) (match_sensorId m) (match_offset m)))
      rc_encode rc_register) as [-> | ->].
    + intros Heq. apply (f_equal length) in Heq. rewrite length_app in Heq.
      simpl in Heq. lia.
    + intros Heq. apply app_inv_head in Heq. by inversion Heq.
Qed.

End sensor_cache.



(** C3, at the input where it fails.  Three signals move the sensor
    through the states 3, 5 and 7, each emitted.  Every event carries the
    offset in [event_class[0]] and the new state in [event_class[1]], but
    [event_class[2]] of the third is 3, while the state last emitted as
    new was 5: the cache is written with the state just reported as
    previous and so stays at the first state. *)
Theorem C3_third_event_reports_first_state :
  (λ s, (λ d, (event_class_0 d, event_class_1 d, event_class_2 d))
          <$> emitted_events s)
    <$> state_sensor.signals 9 examples.no_split examples.bridge0
          examples.sensor_match
          [(examples.changed 10, 0, 0); (examples.changed 20, 0, 0);
           (examples.changed 30, 0, 0)]
  = Some [(0, 3, 3); (0, 5, 3); (0, 7, 3)].
Proof. by vm_compute. Qed.

(** * Further properties of the device updater *)

Section send_operations.
Import fw_update.

Variable cfg : Config.

Lemma next_instance_id_None s :
  InstanceIdDb_next (instanceIdDb (updateManager s)) (eid cfg) = None →
  next_instance_id cfg s = None.
Proof. intros H. unfold next_instance_id. by rewrite H. Qed.

(** When the allocator has no instance id left for the endpoint, every
    send operation gives up at once: nothing reaches the pipeline, the
    allocator and the completion record are as before.  The operations
    started from a scheduled [Defer] have cleared it; the component
    tables are not consulted, so the result is defined for any offset. *)
Theorem send_without_instance_id s offset rc_encode rc_register :
  InstanceIdDb_next (instanceIdDb (updateManager s)) (eid cfg) = None →
  startFwUpdateFlow cfg s rc_encode rc_register = s ∧
  sendPassCompTableRequest cfg s offset rc_encode rc_register
  = Some (with_pldmRequest s None) ∧
  sendUpdateComponentRequest cfg s offset rc_encode rc_register
  = Some (with_pldmRequest s None) ∧
  sendActivateFirmwareRequest cfg s rc_encode rc_register
  = with_pldmRequest s None ∧
  sendCancelUpdateComponentRequest cfg s rc_encode rc_register
  = with_pldmRequest s None.
Proof.
  intros Hnone.
  unfold startFwUpdateFlow, sendPassCompTableRequest,
    sendUpdateComponentRequest, sendActivateFirmwareRequest,
    sendCancelUpdateComponentRequest.
  rewrite !next_instance_id_None by done. done.
Qed.

Lemma with_instanceIdDb_same s :
  with_manager s
    (with_instanceIdDb (updateManager s) (instanceIdDb (updateManager s)))
  = s.
Proof. by destruct s as [? ? ? ? ? []]. Qed.

(** A failed encode in [sendCancelUpdateComponentRequest] is abandoned
    cleanly: apart from the cleared [Defer] the updater is exactly as
    before, the instance id is back in the pool and no request is
    registered, whatever the registration would have returned. *)
Theorem cancel_request_abandoned_on_encode_failure s rc_encode rc_register :
  rc_encode ≠ 0 →
  sendCancelUpdateComponentRequest cfg s rc_encode rc_register
  = with_pldmRequest s None.
Proof.
  intros Hrc. unfold sendCancelUpdateComponentRequest, next_instance_id.
  cbn [with_pldmRequest updateManager].
  destruct (InstanceIdDb_next _ _) as [[i db]|] eqn:Hnext; [|done].
  rewrite decide_True, free_on_failure_failure by done.
  cbn [with_manager with_instanceIdDb updateManager instanceIdDb].
  rewrite (InstanceIdDb_next_free _ _ _ _ Hnext).
  by destruct s as [? ? ? ? ? []].
Qed.

End send_operations.

Lemma send_without_instance_id_witness :
  fw_update.sendUpdateComponentRequest examples.cfg examples.exhausted 7 0 0
  = Some examples.exhausted.
Proof.
  assert (Hnone : InstanceIdDb_next
            (fw_update.instanceIdDb (fw_update.updateManager examples.exhausted))
            (fw_update.eid examples.cfg) = None) by (by vm_compute).
  exact (proj1 (proj2 (proj2
           (send_without_instance_id examples.cfg examples.exhausted 7 0 0
              Hnone)))).
Defined.

Lemma cancel_request_abandoned_on_encode_failure_witness :
  fw_update.sendCancelUpdateComponentRequest examples.cfg examples.failed0 2 0
  = examples.failed0.
Proof.
  exact (cancel_request_abandoned_on_encode_failure examples.cfg examples.failed0 2 0
           ltac:(done)).
Defined.

Section response_reports.
Import fw_update.

Variable cfg : Config.

(** A response that is present but does not decode is dropped by every
    response handler: the updater is left exactly as it was, so no
    completion is reported and no further request is scheduled. *)
Theorem undecodable_response_is_dropped s eid' r :
  no_response r = false →
  resp_decode_rc r ≠ 0 →
  requestUpdate s eid' r = s ∧
  passCompTable cfg s eid' r = s ∧
  updateComponent s eid' r = s ∧
  activateFirmware s eid' r = s ∧
  cancelUpdateComponent cfg s eid' r = s.
Proof.
  intros Hresp Hrc.
  unfold requestUpdate, passCompTable, updateComponent, activateFirmware,
    cancelUpdateComponent.
  rewrite Hresp. by rewrite !decide_True.
Qed.

(** [requestUpdate], [passCompTable] and [activateFirmware] report the
    device as failed exactly when no response arrived or the decoded
    completion code is not zero; they then schedule nothing.
    [activateFirmware] reports success exactly on a decoded completion
    code of zero.  Each handler makes at most one report. *)
Theorem failure_report_of_response_handlers s eid' r :
  let failed := no_response r = true
                ∨ (resp_decode_rc r = 0 ∧ resp_completionCode r ≠ 0) in
  let succeeded := no_response r = false ∧ resp_decode_rc r = 0
                   ∧ resp_completionCode r = 0 in
  (failed → requestUpdate s eid' r = updateDeviceCompletion s eid' false
            ∧ passCompTable cfg s eid' r
              = updateDeviceCompletion s eid' false
            ∧ activateFirmware s eid' r
              = updateDeviceCompletion s eid' false) ∧
  (¬ failed →
   deviceCompletion (updateManager (requestUpdate s eid' r))
   = deviceCompletion (updateManager s) ∧
   deviceCompletion (updateManager (passCompTable cfg s eid' r))
   = deviceCompletion (updateManager s)) ∧
  (succeeded → activateFirmware s eid' r = updateDeviceCompletion s eid' true)
  ∧ (¬ failed → ¬ succeeded → activateFirmware s eid' r = s).
Proof.
  intros failed succeeded. subst failed succeeded.
  unfold requestUpdate, passCompTable, activateFirmware.
  destruct (no_response r).
  { split; [done|]. split; [intros []; by left|]. split; [by intros [? _]|].
    intros []. by left. }
  destruct (decide (resp_decode_rc r = 0)) as [Hrc|Hrc];
    destruct (decide (resp_completionCode r = 0)) as [Hcc|Hcc].
  - rewrite !(decide_False (P := resp_decode_rc r ≠ 0)) by tauto.
    rewrite !(decide_False (P := resp_completionCode r ≠ 0)) by tauto.
    split; [intros [?|[_ ?]]; done|]. split; [by repeat case_decide|].
    split; [done|]. intros _ Hns. by destruct Hns.
  - rewrite !(decide_False (P := resp_decode_rc r ≠ 0)) by tauto.
    rewrite !(decide_True (P := resp_completionCode r ≠ 0)) by tauto.
    split; [done|]. split; [intros Hnf; destruct Hnf; by right|].
    split; [by intros (_ & _ & ?)|]. intros Hnf. destruct Hnf. by right.
  - rewrite !(decide_True (P := resp_decode_rc r ≠ 0)) by tauto.
    split; [intros [?|[? _]]; done|]. split; [done|].
    split; [by intros (_ & ? & _)|done].
  - rewrite !(decide_True (P := resp_decode_rc r ≠ 0)) by tauto.
    split; [intros [?|[? _]]; done|]. split; [done|].
    split; [by intros (_ & ? & _)|done].
Qed.

End response_reports.

Lemma undecodable_response_is_dropped_witness :
  fw_update.passCompTable examples.cfg examples.idle 9 (mk_response true 3 1 0)
  = examples.idle.
Proof.
  exact (proj1 (proj2 (undecodable_response_is_dropped examples.cfg
                         examples.idle 9 (mk_response true 3 1 0)
                         eq_refl ltac:(done)))).
Defined.

Lemma failure_report_of_response_handlers_witness :
  fw_update.requestUpdate examples.idle 9 (mk_response true 3 0 4)
  = fw_update.updateDeviceCompletion examples.idle 9 false.
Proof.
  apply (failure_report_of_response_handlers examples.cfg examples.idle 9
           (mk_response true 3 0 4)).
  right. by split.
Defined.

Section responders.
Import fw_update.

Variable cfg : Config.

(** A device request that does not decode is answered with
    ERROR_INVALID_DATA, whatever the component cursor is (the component
    tables are not consulted).  [requestFwData], [verifyComplete] and
    [applyComplete] then leave the updater as it was; [transferComplete]
    has already torn the data-request timer down. *)
Theorem undecodable_device_request s rc_decode field length_ rc_encode
    rc_register :
  rc_decode ≠ 0 →
  requestFwData cfg s rc_decode field length_ rc_encode
  = Some (s, mk_reply PLDM_ERROR_INVALID_DATA []) ∧
  transferComplete cfg s rc_decode field rc_encode rc_register
  = Some (with_reqFwDataTimer s None, PLDM_ERROR_INVALID_DATA) ∧
  verifyComplete cfg s rc_decode field rc_encode rc_register
  = Some (s, PLDM_ERROR_INVALID_DATA) ∧
  applyComplete cfg s rc_decode field rc_encode rc_register
  = Some (s, PLDM_ERROR_INVALID_DATA).
Proof.
  intros Hrc.
  unfold requestFwData, transferComplete, verifyComplete, applyComplete.
  by rewrite !decide_True.
Qed.

(** The completion code of the reply to TransferComplete, VerifyComplete
    and ApplyComplete depends on the decoding alone: it is
    ERROR_INVALID_DATA when the request does not decode and SUCCESS
    otherwise, also when the device reports a failed transfer,
    verification or application. *)
Theorem completion_reply_code s rc_decode result rc_encode rc_register
    s' code :
  transferComplete cfg s rc_decode result rc_encode rc_register
  = Some (s', code)
  ∨ verifyComplete cfg s rc_decode result rc_encode rc_register
    = Some (s', code)
  ∨ applyComplete cfg s rc_decode result rc_encode rc_register
    = Some (s', code) →
  code = if decide (rc_decode = 0) then PLDM_SUCCESS
         else PLDM_ERROR_INVALID_DATA.
Proof.
  unfold transferComplete, verifyComplete, applyComplete.
  destruct (decide (rc_decode = 0)) as [->|Hrc].
  - destruct (decide (0 ≠ 0)) as [?|_]; [done|].
    destruct (component_at cfg _); cbn [mbind option_bind];
      [|by intros [|[|]]].
    intros [H|[H|H]]; repeat case_decide; by inversion H.
  - rewrite !decide_True by done. intros [H|[H|H]]; by inversion H.
Qed.

(** TransferComplete always ends the data-request timer: whatever the
    request carries, afterwards there is no timer, and a timer expiry
    cannot be delivered. *)
Theorem transferComplete_ends_timer s rc_decode result rc_encode rc_register
    s' code :
  transferComplete cfg s rc_decode result rc_encode rc_register
  = Some (s', code) →
  reqFwDataTimer s' = None ∧
  ∀ rc_encode' rc_register',
    step cfg s' (ev_timer rc_encode' rc_register') = None.
Proof.
  intros H.
  assert (Ht : reqFwDataTimer s' = None).
  { unfold transferComplete in H. case_decide; [by inversion H|].
    cbn [with_reqFwDataTimer componentIndex] in H.
    destruct (component_at cfg _); cbn [mbind option_bind] in H; [|done].
    case_decide; inversion H; subst; [done|].
    unfold component_failed, sendCancelUpdateComponentRequest,
      next_instance_id, free_on_failure.
    cbn [with_pldmRequest updateManager updateDeviceCompletion with_manager].
    destruct (InstanceIdDb_next _ _) as [[i db]|]; [|done].
    by repeat case_decide. }
  split; [done|]. intros. cbn [step]. by rewrite Ht.
Qed.


End responders.

Lemma undecodable_device_request_witness :
  fw_update.verifyComplete examples.cfg examples.updating0 3 0 0 0
  = Some (examples.updating0, PLDM_ERROR_INVALID_DATA).
Proof.
  exact (proj1 (proj2 (proj2 (undecodable_device_request examples.cfg
           examples.updating0 3 0 0 0 0 ltac:(done))))).
Defined.

Lemma completion_reply_code_witness :
  PLDM_SUCCESS = (if decide (0 = 0) then PLDM_SUCCESS
                  else PLDM_ERROR_INVALID_DATA).
Proof.
  apply (completion_reply_code examples.cfg examples.updating0 0 10 0 0
           (fw_update.component_failed examples.cfg examples.updating0 0 0)
           PLDM_SUCCESS).
  right. left. reflexivity.
Defined.

Lemma transferComplete_ends_timer_witness :
  fw_update.step examples.cfg
    (fw_update.with_reqFwDataTimer examples.serving0 None)
    (fw_update.ev_timer 0 0) = None.
Proof.
  apply (transferComplete_ends_timer examples.cfg examples.serving0 0 0 0 0
           (fw_update.with_reqFwDataTimer examples.serving0 None)
           PLDM_SUCCESS).
  reflexivity.
Defined.


Section data_requests.
Import fw_update.

Variable cfg : Config.

(** Serving data never moves the state machine: [requestFwData] sends
    nothing, reports nothing and leaves the cursor, the statuses and the
    scheduled send alone.  A request that is not served (any reply other
    than SUCCESS) carries no payload and leaves the updater exactly as it
    was, so it neither starts nor restarts the timer; a served request
    leaves the timer running, unless encoding the reply failed, in which
    case the timer is as before. *)
Theorem requestFwData_effects s rc_decode offset length_ rc_encode s' reply :
  requestFwData cfg s rc_decode offset length_ rc_encode = Some (s', reply) →
  componentIndex s' = componentIndex s ∧
  componentUpdateStatus s' = componentUpdateStatus s ∧
  pldmRequest s' = pldmRequest s ∧
  updateManager s' = updateManager s ∧
  (completionCode reply ≠ PLDM_SUCCESS → s' = s ∧ payload reply = []) ∧
  (completionCode reply = PLDM_SUCCESS →
   reqFwDataTimer s'
   = if decide (rc_encode = 0) then Some true else reqFwDataTimer s).
Proof.
  unfold requestFwData. case_decide; [by intros [= <- <-]|].
  destruct (component_at cfg (componentIndex s)) as [comp|];
    cbn [mbind option_bind]; [|done].
  case_decide; [by intros [= <- <-]|].
  case_decide; [by intros [= <- <-]|].
  destruct (package_read _ _ _ _ _) as [data good].
  destruct (decide (rc_encode = 0)) as [->|Hrc].
  - destruct (decide (0 ≠ 0)) as [?|_]; [done|]. by intros [= <- <-].
  - rewrite decide_True by done. by intros [= <- <-].
Qed.

(** Where neither 32-bit sum wraps around, the range check is the exact
    one: a request of valid length is answered DATA_OUT_OF_RANGE exactly
    when [offset + length > compSize + BASELINE_TRANSFER_SIZE], and is
    served otherwise, the boundary included. *)
Theorem range_check_without_wraparound s comp offset length_ rc_encode :
  component_at cfg (componentIndex s) = Some comp →
  0 ≤ offset → 0 ≤ CompSize comp →
  PLDM_FWUP_BASELINE_TRANSFER_SIZE ≤ length_ ≤ maxTransferSize cfg →
  offset + length_ < 2 ^ 32 →
  CompSize comp + PLDM_FWUP_BASELINE_TRANSFER_SIZE < 2 ^ 32 →
  fw_data_reply_code cfg s offset length_ rc_encode
  = Some (if decide (offset + length_
                     > CompSize comp + PLDM_FWUP_BASELINE_TRANSFER_SIZE)
          then PLDM_FWUP_DATA_OUT_OF_RANGE else PLDM_SUCCESS).
Proof.
  intros Hcomp Ho Hc Hl Hsum Hsize. unfold fw_data_reply_code.
  assert (Hlen : ¬ (length_ < PLDM_FWUP_BASELINE_TRANSFER_SIZE
                    ∨ length_ > maxTransferSize cfg)) by lia.
  assert (Hrhs : u32 (CompSize comp + PLDM_FWUP_BASELINE_TRANSFER_SIZE)
                 = CompSize comp + PLDM_FWUP_BASELINE_TRANSFER_SIZE).
  { apply u32_small. unfold PLDM_FWUP_BASELINE_TRANSFER_SIZE in *. lia. }
  assert (0 ≤ length_) by (unfold PLDM_FWUP_BASELINE_TRANSFER_SIZE in *; lia).
  case_decide as Hrange.
  - rewrite (requestFwData_out_of_range cfg s comp Hcomp); [done|done|].
    rewrite u32_small by lia. by rewrite Hrhs.
  - destruct (requestFwData_serve cfg s comp Hcomp offset length_ rc_encode
                Hlen) as [s' ->]; [|done].
    rewrite u32_small by lia. by rewrite Hrhs.
Qed.

End data_requests.

Lemma requestFwData_effects_witness :
  ∃ s' reply,
    fw_update.requestFwData examples.cfg examples.updating0 0 0 16 0
    = Some (s', reply) ∧ s' = examples.updating0.
Proof.
  destruct (fw_update.requestFwData examples.cfg examples.updating0 0 0 16 0)
    as [[s' reply]|] eqn:Hreq; [|by vm_compute in Hreq].
  exists s', reply. split; [done|].
  apply (proj1 (proj2 (proj2 (proj2 (proj2
           (requestFwData_effects examples.cfg examples.updating0 0 0 16 0
              s' reply Hreq)))))).
  vm_compute in Hreq. by inversion Hreq.
Defined.

Lemma range_check_without_wraparound_witness :
  fw_data_reply_code examples.cfg examples.updating0 64 32 0
  = Some PLDM_SUCCESS ∧
  fw_data_reply_code examples.cfg examples.updating0 65 32 0
  = Some PLDM_FWUP_DATA_OUT_OF_RANGE.
Proof.
  split.
  - apply (range_check_without_wraparound examples.cfg examples.updating0
             examples.comp0 64 32 0 eq_refl); vm_compute; by intuition.
  - apply (range_check_without_wraparound examples.cfg examples.updating0
             examples.comp0 65 32 0 eq_refl); vm_compute; by intuition.
Defined.

(** ** The component cursor *)

Section cursor.
Import fw_update.

Variable cfg : Config.

(** What the send operations do to the cursor and to the scheduled
    send. *)
Lemma startFwUpdateFlow_cursor s rc_encode rc_register :
  componentIndex (startFwUpdateFlow cfg s rc_encode rc_register)
  = componentIndex s ∧
  pldmRequest (startFwUpdateFlow cfg s rc_encode rc_register)
  = pldmRequest s.
Proof.
  unfold startFwUpdateFlow, next_instance_id, free_on_failure.
  destruct (InstanceIdDb_next _ _) as [[i db]|]; [|done]. by case_decide.
Qed.

Lemma sendPassCompTableRequest_cursor s offset rc_encode rc_register s' :
  sendPassCompTableRequest cfg s offset rc_encode rc_register = Some s' →
  componentIndex s' = componentIndex s ∧ pldmRequest s' = None.
Proof.
  unfold sendPassCompTableRequest, next_instance_id, free_on_failure.
  cbn [with_pldmRequest updateManager].
  destruct (InstanceIdDb_next _ _) as [[i db]|]; [|by intros [= <-]].
  destruct (component_at cfg offset); [|done].
  cbn [mbind option_bind]. intros [= <-]. by case_decide.
Qed.

Lemma sendUpdateComponentRequest_cursor s offset rc_encode rc_register s' :
  sendUpdateComponentRequest cfg s offset rc_encode rc_register = Some s' →
  componentIndex s' = componentIndex s ∧ pldmRequest s' = None.
Proof.
  unfold sendUpdateComponentRequest, next_instance_id, free_on_failure.
  cbn [with_pldmRequest updateManager].
  destruct (InstanceIdDb_next _ _) as [[i db]|]; [|by intros [= <-]].
  destruct (component_at cfg offset); [|done].
  cbn [mbind option_bind]. intros [= <-]. by case_decide.
Qed.

Lemma sendActivateFirmwareRequest_cursor s rc_encode rc_register :
  componentIndex (sendActivateFirmwareRequest cfg s rc_encode rc_register)
  = componentIndex s ∧
  pldmRequest (sendActivateFirmwareRequest cfg s rc_encode rc_register)
  = None.
Proof.
  unfold sendActivateFirmwareRequest, next_instance_id, free_on_failure.
  cbn [with_pldmRequest updateManager].
  destruct (InstanceIdDb_next _ _) as [[i db]|]; [|done]. by case_decide.
Qed.

Lemma sendCancelUpdateComponentRequest_cursor s rc_encode rc_register :
  componentIndex (sendCancelUpdateComponentRequest cfg s rc_encode
                                                   rc_register)
  = componentIndex s ∧
  pldmRequest (sendCancelUpdateComponentRequest cfg s rc_encode rc_register)
  = None.
Proof.
  unfold sendCancelUpdateComponentRequest, next_instance_id, free_on_failure.
  cbn [with_pldmRequest updateManager].
  destruct (InstanceIdDb_next _ _) as [[i db]|]; [|done].
  by repeat case_decide.
Qed.

Lemma component_failed_cursor s rc_encode rc_register :
  componentIndex (component_failed cfg s rc_encode rc_register)
  = componentIndex s ∧
  pldmRequest (component_failed cfg s rc_encode rc_register) = None.
Proof.
  unfold component_failed.
  destruct (sendCancelUpdateComponentRequest_cursor
              (with_componentUpdateStatus
                 (updateDeviceCompletion s (eid cfg) false)
                 (<[componentIndex (updateDeviceCompletion s (eid cfg) false)
                    := false]>
                    (componentUpdateStatus
                       (updateDeviceCompletion s (eid cfg) false))))
              rc_encode rc_register) as [-> ->].
  done.
Qed.

Lemma last_or_next i :
  0 ≤ i < num_components cfg →
  size_t (num_components cfg - 1) = num_components cfg - 1 ∧
  (i ≠ num_components cfg - 1 → 0 ≤ i + 1 < num_components cfg).
Proof.
  intros Hi. pose proof (size_t_range
    (Z.of_nat (length (applicableComponents cfg)))) as HN.
  fold (num_components cfg) in HN. split; [|lia].
  apply size_t_small. lia.
Qed.

(** The component cursor is always a valid position: starting from a
    position below the number of applicable components, every turn of
    the event loop leaves it below that number, and whenever a send is
    scheduled for a component, it is for the component under the
    cursor. *)
Theorem cursor_stays_in_range s e s' :
  cursor_ok cfg s →
  step cfg s e = Some s' →
  cursor_ok cfg s'.
Proof.
  intros [Hidx Hdefer].
  destruct (last_or_next _ Hidx) as [Hlast Hnext].
  unfold cursor_ok.
  destruct e as [rc_e rc_r|rc_e rc_r|n r|rc_d o l rc_e|rc_d res rc_e rc_r
                |rc_d res rc_e rc_r|rc_d res rc_e rc_r|rc_e rc_r];
    cbn [step].
  - intros [= <-].
    destruct (startFwUpdateFlow_cursor s rc_e rc_r) as [-> ->]. done.
  - unfold run_deferred. destruct (pldmRequest s) as [[off|off|]|]; [..|done].
    + intros [-> ->]%sendPassCompTableRequest_cursor. done.
    + intros [-> ->]%sendUpdateComponentRequest_cursor. done.
    + intros [= <-].
      destruct (sendActivateFirmwareRequest_cursor s rc_e rc_r) as [-> ->].
      done.
  - unfold deliver. destruct (handler (updateManager s) !! n) as [req|];
      [|done]. cbn [mbind option_bind].
    destruct (req_command req); intros [= <-]; [done|..];
      unfold requestUpdate, passCompTable, updateComponent, activateFirmware,
        cancelUpdateComponent;
      destruct (no_response r); try done;
      repeat case_decide; try done;
      try destruct (any_status_true _); cbn; rewrite ?Hlast in *;
      try done; try (split; [lia|done]); split; try done; by apply Hnext.
  - intros H. destruct (requestFwData cfg s rc_d o l rc_e) as [[t reply]|]
      eqn:Hreq; [|done]. cbn in H. inversion H; subst t.
    unfold requestFwData in Hreq.
    case_decide; [by inversion Hreq; subst|].
    destruct (component_at cfg (componentIndex s));
      cbn [mbind option_bind] in Hreq; [|done].
    repeat case_decide; try (by inversion Hreq; subst).
    all: destruct (package_read _ _ _ _ _); repeat case_decide;
      by inversion Hreq; subst.
  - unfold transferComplete. cbn [with_reqFwDataTimer componentIndex].
    case_decide; [by intros [= <-]|].
    destruct (component_at cfg (componentIndex s)); [|done].
    cbn [mbind option_bind]. case_decide; intros [= <-]; [done|].
    cbn [fst].
    destruct (component_failed_cursor (with_reqFwDataTimer s None) rc_e rc_r)
      as [-> ->]. done.
  - unfold verifyComplete.
    case_decide; [by intros [= <-]|].
    destruct (component_at cfg (componentIndex s)); [|done].
    cbn [mbind option_bind]. case_decide; intros [= <-]; [done|].
    cbn [fst]. destruct (component_failed_cursor s rc_e rc_r) as [-> ->].
    done.
  - unfold applyComplete.
    case_decide; [by intros [= <-]|].
    destruct (component_at cfg (componentIndex s)); [|done].
    cbn [mbind option_bind].
    case_decide as Hres.
    + case_decide as Hl; intros [= <-]; cbn; cbn in Hl; rewrite ?Hlast in *.
      * split; [lia|done].
      * split; [by apply Hnext|done].
    + intros [= <-]. cbn [fst].
      destruct (component_failed_cursor s rc_e rc_r) as [-> ->]. done.
  - destruct (reqFwDataTimer s) as [[]|]; [|done..]. intros [= <-].
    unfold reqFwDataTimer_expired.
    cbn [updateDeviceCompletion with_manager componentIndex pldmRequest].
    destruct (sendCancelUpdateComponentRequest_cursor
                (with_componentUpdateStatus
                   (with_reqFwDataTimer s (Some false))
                   (<[componentIndex (with_reqFwDataTimer s (Some false))
                      := false]>
                      (componentUpdateStatus
                         (with_reqFwDataTimer s (Some false)))))
                rc_e rc_r) as [-> ->].
    done.
Qed.

(** With a component image behind every applicable index, the device
    updater never indexes its tables out of range: from a state whose
    cursor is valid, a turn of the event loop is undefined only for an
    event that cannot occur in that state. *)
Theorem no_out_of_range_access s e :
  table_ok cfg →
  cursor_ok cfg s →
  step cfg s e = None →
  not_enabled s e.
Proof.
  intros Htable [Hidx Hdefer].
  destruct (Htable _ Hidx) as [comp Hcomp].
  destruct e as [rc_e rc_r|rc_e rc_r|n r|rc_d o l rc_e|rc_d res rc_e rc_r
                |rc_d res rc_e rc_r|rc_d res rc_e rc_r|rc_e rc_r];
    cbn [step not_enabled].
  - done.
  - unfold run_deferred.
    destruct (pldmRequest s) as [[off|off|]|]; [..|done|done]; subst off.
    + unfold sendPassCompTableRequest, next_instance_id.
      cbn [with_pldmRequest updateManager].
      destruct (InstanceIdDb_next _ _) as [[i db]|]; [|done].
      by rewrite Hcomp.
    + unfold sendUpdateComponentRequest, next_instance_id.
      cbn [with_pldmRequest updateManager].
      destruct (InstanceIdDb_next _ _) as [[i db]|]; [|done].
      by rewrite Hcomp.
  - unfold deliver. destruct (handler (updateManager s) !! n) as [req|];
      [|done]. cbn [mbind option_bind]. by destruct (req_command req).
  - unfold requestFwData. rewrite Hcomp. cbn [mbind option_bind].
    repeat case_decide; try done.
    all: destruct (package_read _ _ _ _ _); by repeat case_decide.
  - unfold transferComplete. cbn [with_reqFwDataTimer componentIndex].
    rewrite Hcomp. by repeat case_decide.
  - unfold verifyComplete. rewrite Hcomp. by repeat case_decide.
  - unfold applyComplete. rewrite Hcomp. by repeat case_decide.
  - by destruct (reqFwDataTimer s) as [[]|].
Qed.

End cursor.

Lemma examples_cursor_ok : cursor_ok examples.cfg examples.updating0.
Proof. split; [by vm_compute|done]. Qed.

Lemma examples_table_ok : table_ok examples.cfg.
Proof.
  intros i Hi.
  assert (HN : fw_update.num_components examples.cfg = 2) by reflexivity.
  rewrite HN in Hi.
  assert (Hcases : i = 0 ∨ i = 1) by lia.
  destruct Hcases as [-> | ->]; by eexists.
Qed.

Lemma cursor_stays_in_range_witness :
  ∃ s', fw_update.step examples.cfg examples.updating0
          (fw_update.ev_applyComplete 0 0 0 0) = Some s' ∧
        cursor_ok examples.cfg s'.
Proof.
  eexists. split; [reflexivity|].
  eapply (cursor_stays_in_range examples.cfg examples.updating0
            (fw_update.ev_applyComplete 0 0 0 0)).
  - exact examples_cursor_ok.
  - reflexivity.
Defined.

Lemma no_out_of_range_access_witness :
  not_enabled examples.updating0 (fw_update.ev_deferred 0 0).
Proof.
  apply (no_out_of_range_access examples.cfg examples.updating0
           (fw_update.ev_deferred 0 0) examples_table_ok examples_cursor_ok).
  reflexivity.
Defined.

(** ** Instance ids of pending requests *)

Section pending_ids.
Import fw_update.

Variable cfg : Config.

Lemma hold_register h db i db' ty cmd msg rc :
  hold cfg h db →
  InstanceIdDb_next db (eid cfg) = Some (i, db') →
  hold cfg (registerRequest h (mk_request (eid cfg) i ty cmd msg) rc) db'.
Proof.
  intros [Hnd Hin] Hnext.
  apply InstanceIdDb_next_fresh in Hnext as (Hfresh & -> & _).
  unfold registerRequest. case_decide.
  - split.
    + rewrite fmap_app. apply NoDup_app. split; [done|]. split.
      * intros j Hj [->|[]%elem_of_nil]%elem_of_cons.
        apply list_elem_of_fmap in Hj as (r & Hr & Hrin). cbn in Hr.
        destruct (Hin r Hrin) as [_ Hdb]. by rewrite <- Hr in Hdb.
      * apply NoDup_singleton.
    + intros r [Hr|Hr]%elem_of_app.
      * destruct (Hin r Hr). split; [done|]. by apply elem_of_union_r.
      * apply list_elem_of_singleton in Hr as ->. split; [done|].
        apply elem_of_union_l. by apply elem_of_singleton.
  - split; [done|]. intros r Hr. destruct (Hin r Hr).
    split; [done|]. by apply elem_of_union_r.
Qed.

Lemma hold_deliver h db n req :
  hold cfg h db →
  h !! n = Some req →
  hold cfg (delete n h) (InstanceIdDb_free db (req_eid req) (req_instance_id req)).
Proof.
  intros [Hnd Hin] Hn.
  assert (Hsplit : h = take n h ++ req :: drop (S n) h)
    by (symmetry; by apply take_drop_middle).
  rewrite delete_take_drop. rewrite Hsplit in Hnd, Hin.
  rewrite fmap_app, fmap_cons in Hnd.
  apply NoDup_app in Hnd as (Hnd1 & Hdisj & Hnd2).
  apply NoDup_cons in Hnd2 as [Hnotin Hnd2].
  split.
  - rewrite fmap_app. apply NoDup_app. split; [done|]. split; [|done].
    intros j Hj Hj'. apply (Hdisj j Hj). by right.
  - intros r Hr.
    assert (Hr' : r ∈ take n h ++ req :: drop (S n) h).
    { apply elem_of_app in Hr as [?|?]; apply elem_of_app; [by left|].
      right. by right. }
    destruct (Hin r Hr') as [Heid Hdb]. split; [done|].
    unfold InstanceIdDb_free. apply elem_of_difference. split; [done|].
    rewrite elem_of_singleton. intros [= _ Hid].
    apply elem_of_app in Hr as [Hr|Hr].
    + apply (Hdisj (req_instance_id r)).
      * apply list_elem_of_fmap. by exists r.
      * rewrite Hid. by left.
    + apply Hnotin. rewrite <- Hid. apply list_elem_of_fmap. by exists r.
Qed.

Lemma pending_hold_ids_hold s :
  pending_hold_ids cfg s
  ↔ hold cfg (handler (updateManager s)) (instanceIdDb (updateManager s)).
Proof. done. Qed.

Lemma sent_hold s s' :
  pending_hold_ids cfg s → sent cfg s s' → pending_hold_ids cfg s'.
Proof.
  intros Hinv [[Hh Hdb]|(i & db' & cmd & msg & rc & Hnext & Hdb & Hh)].
  - unfold pending_hold_ids. by rewrite Hh, Hdb.
  - apply pending_hold_ids_hold. rewrite Hdb, Hh.
    eapply hold_register; [exact Hinv|exact Hnext].
Qed.

Lemma startFwUpdateFlow_sent s rc_register :
  sent cfg s (startFwUpdateFlow cfg s 0 rc_register).
Proof.
  unfold startFwUpdateFlow, next_instance_id, free_on_failure.
  destruct (InstanceIdDb_next _ _) as [[i db]|] eqn:Hnext; [|by left].
  destruct (decide (0 ≠ 0)) as [?|_]; [done|]. right.
  eexists i, db, _, _, _. split; [done|]. by cbn.
Qed.

Lemma sendPassCompTableRequest_sent s offset rc_register s' :
  sendPassCompTableRequest cfg s offset 0 rc_register = Some s' → sent cfg s s'.
Proof.
  unfold sendPassCompTableRequest, next_instance_id, free_on_failure.
  cbn [with_pldmRequest updateManager].
  destruct (InstanceIdDb_next _ _) as [[i db]|] eqn:Hnext;
    [|intros [= <-]; by left].
  destruct (component_at cfg offset); [|done].
  cbn [mbind option_bind]. intros [= <-].
  destruct (decide (0 ≠ 0)) as [?|_]; [done|]. right.
  eexists i, db, _, _, _. split; [done|]. by cbn.
Qed.

Lemma sendUpdateComponentRequest_sent s offset rc_register s' :
  sendUpdateComponentRequest cfg s offset 0 rc_register = Some s' → sent cfg s s'.
Proof.
  unfold sendUpdateComponentRequest, next_instance_id, free_on_failure.
  cbn [with_pldmRequest updateManager].
  destruct (InstanceIdDb_next _ _) as [[i db]|] eqn:Hnext;
    [|intros [= <-]; by left].
  destruct (component_at cfg offset); [|done].
  cbn [mbind option_bind]. intros [= <-].
  destruct (decide (0 ≠ 0)) as [?|_]; [done|]. right.
  eexists i, db, _, _, _. split; [done|]. by cbn.
Qed.

Lemma sendActivateFirmwareRequest_sent s rc_register :
  sent cfg s (sendActivateFirmwareRequest cfg s 0 rc_register).
Proof.
  unfold sendActivateFirmwareRequest, next_instance_id, free_on_failure.
  cbn [with_pldmRequest updateManager].
  destruct (InstanceIdDb_next _ _) as [[i db]|] eqn:Hnext; [|by left].
  destruct (decide (0 ≠ 0)) as [?|_]; [done|]. right.
  eexists i, db, _, _, _. split; [done|]. by cbn.
Qed.

(** [sendCancelUpdateComponentRequest] keeps the pipeline in order
    whatever its encoder returns. *)
Lemma sendCancelUpdateComponentRequest_sent s rc_encode rc_register :
  sent cfg s (sendCancelUpdateComponentRequest cfg s rc_encode rc_register).
Proof.
  destruct (decide (rc_encode = 0)) as [->|Hrc].
  - unfold sendCancelUpdateComponentRequest, next_instance_id.
    cbn [with_pldmRequest updateManager].
    destruct (InstanceIdDb_next _ _) as [[i db]|] eqn:Hnext; [|by left].
    destruct (decide (0 ≠ 0)) as [?|_]; [done|]. right.
    eexists i, db, _, _, _. split; [done|]. by cbn.
  - left.
    destruct (sendCancelUpdateComponentRequest_encode_failure cfg s rc_encode
                rc_register Hrc) as [-> ->].
    done.
Qed.

Lemma requestFwData_pipeline s rc_decode offset length_ rc_encode s' reply :
  requestFwData cfg s rc_decode offset length_ rc_encode = Some (s', reply) →
  updateManager s' = updateManager s.
Proof.
  unfold requestFwData. case_decide; [by intros [= <- <-]|].
  destruct (component_at cfg (componentIndex s)) as [comp|];
    cbn [mbind option_bind]; [|done].
  case_decide; [by intros [= <- <-]|].
  case_decide; [by intros [= <- <-]|].
  destruct (package_read _ _ _ _ _) as [data good].
  by case_decide; intros [= <- <-].
Qed.

Lemma same_pipeline_hold s s' :
  handler (updateManager s') = handler (updateManager s) →
  instanceIdDb (updateManager s') = instanceIdDb (updateManager s) →
  pending_hold_ids cfg s → pending_hold_ids cfg s'.
Proof. unfold pending_hold_ids. by intros -> ->. Qed.

Lemma component_failed_hold s rc_encode rc_register :
  pending_hold_ids cfg s →
  pending_hold_ids cfg (component_failed cfg s rc_encode rc_register).
Proof.
  intros Hinv. unfold component_failed.
  eapply sent_hold; [|apply sendCancelUpdateComponentRequest_sent].
  by apply (same_pipeline_hold s).
Qed.

(** As long as the encoder succeeds in the send operations, the pipeline
    and the allocator stay consistent over every turn of the event loop:
    the pending requests belong to this endpoint, carry pairwise distinct
    instance ids, and each of these ids is marked in use. *)
Theorem pending_requests_hold_their_ids s e s' :
  pending_hold_ids cfg s →
  encode_succeeds e →
  step cfg s e = Some s' →
  pending_hold_ids cfg s'.
Proof.
  intros Hinv Henc.
  destruct e as [rc_e rc_r|rc_e rc_r|n r|rc_d o l rc_e|rc_d res rc_e rc_r
                |rc_d res rc_e rc_r|rc_d res rc_e rc_r|rc_e rc_r];
    cbn [step encode_succeeds] in *.
  - subst rc_e. intros [= <-].
    eapply sent_hold; [done|apply startFwUpdateFlow_sent].
  - subst rc_e. unfold run_deferred.
    destruct (pldmRequest s) as [[off|off|]|]; [..|done].
    + intros H%sendPassCompTableRequest_sent. by eapply sent_hold.
    + intros H%sendUpdateComponentRequest_sent. by eapply sent_hold.
    + intros [= <-].
      eapply sent_hold; [done|apply sendActivateFirmwareRequest_sent].
  - unfold deliver.
    destruct (handler (updateManager s) !! n) as [req|] eqn:Hn; [|done].
    cbn [mbind option_bind].
    set (t := with_manager s _).
    assert (Ht : pending_hold_ids cfg t).
    { apply pending_hold_ids_hold. subst t. cbn.
      by apply hold_deliver. }
    clearbody t.
    destruct (req_command req); intros [= <-]; [done|..];
      apply (same_pipeline_hold t); try done;
      unfold requestUpdate, passCompTable, updateComponent, activateFirmware,
        cancelUpdateComponent;
      destruct (no_response r); try done;
      repeat case_decide; try done;
      by destruct (any_status_true _).
  - intros H. destruct (requestFwData cfg s rc_d o l rc_e) as [[t reply]|]
      eqn:Hreq; [|done]. cbn in H. inversion H; subst t.
    apply requestFwData_pipeline in Hreq.
    unfold pending_hold_ids. by rewrite Hreq.
  - unfold transferComplete. cbn [with_reqFwDataTimer componentIndex].
    case_decide; [by intros [= <-]|].
    destruct (component_at cfg (componentIndex s)); [|done].
    cbn [mbind option_bind]. case_decide; intros [= <-]; [done|].
    cbn [fst]. by apply component_failed_hold.
  - unfold verifyComplete.
    case_decide; [by intros [= <-]|].
    destruct (component_at cfg (componentIndex s)); [|done].
    cbn [mbind option_bind]. case_decide; intros [= <-]; [done|].
    cbn [fst]. by apply component_failed_hold.
  - unfold applyComplete.
    case_decide; [by intros [= <-]|].
    destruct (component_at cfg (componentIndex s)); [|done].
    cbn [mbind option_bind].
    case_decide as Hres.
    + by case_decide; intros [= <-].
    + intros [= <-]. cbn [fst]. by apply component_failed_hold.
  - destruct (reqFwDataTimer s) as [[]|]; [|done..]. intros [= <-].
    unfold reqFwDataTimer_expired.
    apply (same_pipeline_hold
             (sendCancelUpdateComponentRequest cfg
                (with_componentUpdateStatus
                   (with_reqFwDataTimer s (Some false))
                   (<[componentIndex (with_reqFwDataTimer s (Some false))
                      := false]>
                      (componentUpdateStatus
                         (with_reqFwDataTimer s (Some false)))))
                rc_e rc_r)); [done|done|].
    eapply sent_hold; [|apply sendCancelUpdateComponentRequest_sent].
    by apply (same_pipeline_hold s).
Qed.

End pending_ids.

Lemma pending_requests_hold_their_ids_witness :
  ∃ s', fw_update.step examples.cfg examples.idle
          (fw_update.ev_startFwUpdateFlow 0 0) = Some s' ∧
        pending_hold_ids examples.cfg s'.
Proof.
  eexists. split; [reflexivity|].
  eapply (pending_requests_hold_their_ids examples.cfg examples.idle
            (fw_update.ev_startFwUpdateFlow 0 0)).
  - split; [apply NoDup_nil_2|]. by intros r ?%elem_of_nil.
  - reflexivity.
  - reflexivity.
Defined.

(** ** How the operations compose *)

Section composition.
Import fw_update.

Variable cfg : Config.

Lemma steps_app s es1 es2 :
  steps cfg s (es1 ++ es2) = steps cfg s es1 ≫= λ s', steps cfg s' es2.
Proof.
  revert s. induction es1 as [|e es1 IH]; intros s; [done|].
  cbn [app steps]. destruct (step cfg s e); [|done]. cbn. apply IH.
Qed.

(** A request that goes out on an idle pipeline and is answered puts the
    pipeline and the allocator back as they were. *)
Lemma answered_on_idle_pipeline (m : UpdateManager) i db' r :
  handler m = [] →
  InstanceIdDb_next (instanceIdDb m) (req_eid r) = Some (i, db') →
  req_instance_id r = i →
  with_handler
    (with_instanceIdDb (with_handler (with_instanceIdDb m db') [r])
       (InstanceIdDb_free db' (req_eid r) (req_instance_id r)))
    (delete 0%nat [r])
  = m.
Proof.
  intros Hh Hnext ->. destruct m as [db h c p]. cbn in *. subst h.
  by rewrite (InstanceIdDb_next_free _ _ _ _ Hnext).
Qed.

(** One round of the pass-component-table phase on an idle pipeline. *)
Lemma pass_round_runs s comp :
  handler (updateManager s) = [] →
  is_Some (InstanceIdDb_next (instanceIdDb (updateManager s)) (eid cfg)) →
  component_at cfg (componentIndex s) = Some comp →
  pldmRequest s = Some (defer_sendPassCompTableRequest (componentIndex s)) →
  steps cfg s pass_round
  = Some (passCompTable cfg (with_pldmRequest s None) (eid cfg) ok_response).
Proof.
  intros Hh [[i db'] Hnext] Hcomp Hreq.
  destruct s as [idx st defer tm good [db h c p]].
  cbn [handler updateManager instanceIdDb componentIndex pldmRequest] in *.
  subst h defer.
  unfold pass_round. cbn [steps step]. unfold run_deferred.
  cbn [pldmRequest].
  unfold sendPassCompTableRequest, next_instance_id.
  cbn [with_pldmRequest updateManager instanceIdDb componentIndex
       componentUpdateStatus pldmRequest reqFwDataTimer packageGood].
  rewrite Hnext, Hcomp.
  cbn [mbind option_bind]. unfold free_on_failure, encoded.
  destruct (decide (0 ≠ 0)) as [?|_]; [done|].
  rewrite decide_True by done.
  unfold register, registerRequest. rewrite decide_True by done.
  unfold deliver.
  cbn -[passCompTable InstanceIdDb_free].
  by rewrite (InstanceIdDb_next_free _ _ _ _ Hnext).
Qed.

Lemma passCompTable_ok s eid' :
  passCompTable cfg s eid' ok_response
  = if decide (componentIndex s = size_t (num_components cfg - 1))
    then with_pldmRequest (with_componentIndex s 0)
           (Some (defer_sendUpdateComponentRequest 0))
    else with_pldmRequest (with_componentIndex s (componentIndex s + 1))
           (Some (defer_sendPassCompTableRequest (componentIndex s + 1))).
Proof.
  unfold passCompTable, ok_response. cbn [no_response resp_present respMsgLen
    negb orb Z.eqb resp_decode_rc resp_completionCode].
  destruct (decide (0 ≠ 0)) as [?|_]; [done|]. by case_decide.
Qed.

(** The pass-component-table phase.  From position [i] with its
    PassComponentTable send scheduled, on an idle pipeline with a free
    instance id, the rounds "send, successful response" for the positions
    [i], ..., [N - 1] end with the cursor back at 0 and the
    UpdateComponent send for component 0 scheduled; the pipeline, the
    allocator and everything else are as at the start. *)
Theorem pass_component_table_phase s k :
  table_ok cfg →
  handler (updateManager s) = [] →
  is_Some (InstanceIdDb_next (instanceIdDb (updateManager s)) (eid cfg)) →
  0 ≤ componentIndex s →
  componentIndex s + Z.of_nat k = num_components cfg - 1 →
  pldmRequest s = Some (defer_sendPassCompTableRequest (componentIndex s)) →
  steps cfg s (concat (replicate (S k) pass_round))
  = Some (with_pldmRequest (with_componentIndex s 0)
            (Some (defer_sendUpdateComponentRequest 0))).
Proof.
  intros Htable. revert s.
  induction k as [|k IH]; intros s Hh Hnext Hidx Hk Hreq.
  all: assert (Hrange : 0 ≤ componentIndex s < num_components cfg) by lia.
  all: destruct (Htable _ Hrange) as [comp Hcomp].
  all: destruct (last_or_next cfg _ Hrange) as [Hlast Hnextidx].
  all: cbn [replicate concat]; rewrite steps_app.
  all: rewrite (pass_round_runs s comp Hh Hnext Hcomp Hreq).
  all: cbn [mbind option_bind]; rewrite passCompTable_ok.
  all: cbn [with_pldmRequest componentIndex]; rewrite Hlast.
  - rewrite decide_True by lia. cbn [app steps]. by destruct s.
  - rewrite decide_False by lia.
    cbn [replicate concat] in IH. rewrite IH; [by destruct s|..]; cbn.
    + by destruct s.
    + by destruct s.
    + lia.
    + lia.
    + done.
Qed.

End composition.

Lemma pass_component_table_phase_witness :
  steps examples.cfg examples.table0 (pass_round ++ pass_round)
  = Some examples.tables_passed.
Proof.
  apply (pass_component_table_phase examples.cfg examples.table0 1
           examples_table_ok eq_refl).
  - by eexists.
  - done.
  - reflexivity.
  - reflexivity.
Defined.

Section completion.
Import fw_update.

Variable cfg : Config.

Lemma any_status_true_iff (st : gmap Z bool) :
  any_status_true st = true ↔ ∃ k, st !! k = Some true.
Proof.
  unfold any_status_true. rewrite existsb_exists. split.
  - intros [[k b] [Hin Hb]]. cbn in Hb. subst b. exists k.
    by apply elem_of_map_to_list, list_elem_of_In.
  - intros [k Hk]. exists (k, true). split; [|done].
    by apply list_elem_of_In, elem_of_map_to_list.
Qed.

Lemma size_t_last : 
  1 ≤ num_components cfg →
  size_t (num_components cfg - 1) = num_components cfg - 1.
Proof.
  intros. pose proof (size_t_range
    (Z.of_nat (length (applicableComponents cfg)))) as HN.
  fold (num_components cfg) in HN. apply size_t_small. lia.
Qed.

(** After the cancellation of the last component is acknowledged, the
    device updater goes on to activation exactly when some recorded
    component status is true; the statuses are then cleared and the
    cursor reset.  When no status is true it reports the device as
    failed and schedules nothing. *)
Theorem cancel_of_last_component s eid' :
  1 ≤ num_components cfg →
  componentIndex s = num_components cfg - 1 →
  let s' := cancelUpdateComponent cfg s eid' ok_response in
  ((∃ k, componentUpdateStatus s !! k = Some true) →
   s' = with_pldmRequest
          (with_componentUpdateStatus (with_componentIndex s 0) ∅)
          (Some defer_sendActivateFirmwareRequest)) ∧
  ((∀ k, componentUpdateStatus s !! k ≠ Some true) →
   s' = updateDeviceCompletion s eid' false).
Proof.
  intros HN Hidx s'. subst s'. unfold cancelUpdateComponent, ok_response.
  cbn [no_response resp_present respMsgLen negb orb Z.eqb resp_decode_rc
       resp_completionCode].
  destruct (decide (0 ≠ 0)) as [?|_]; [done|].
  rewrite size_t_last by done. rewrite decide_True by done.
  destruct (any_status_true (componentUpdateStatus s)) eqn:Hany.
  - split; [done|]. intros Hnone.
    apply any_status_true_iff in Hany as [k Hk]. by destruct (Hnone k).
  - split; [|done]. intros Hsome. apply any_status_true_iff in Hsome.
    congruence.
Qed.

Lemma cancelUpdateComponent_nothing_succeeded s eid' :
  1 ≤ num_components cfg →
  componentIndex s = num_components cfg - 1 →
  (∀ k, componentUpdateStatus s !! k ≠ Some true) →
  cancelUpdateComponent cfg s eid' ok_response
  = updateDeviceCompletion s eid' false.
Proof.
  intros HN Hidx Hnone. unfold cancelUpdateComponent, ok_response.
  cbn [no_response resp_present respMsgLen negb orb Z.eqb resp_decode_rc
       resp_completionCode].
  destruct (decide (0 ≠ 0)) as [?|_]; [done|].
  rewrite size_t_last by done. rewrite decide_True by done.
  destruct (any_status_true (componentUpdateStatus s)) eqn:Hany; [|done].
  apply any_status_true_iff in Hany as [k Hk]. by destruct (Hnone k).
Qed.

(** The last component to completion.  When the device reports the last
    component as applied, the updater counts the progress, schedules
    ActivateFirmware, sends it, and on a successful response reports the
    device as updated, once; the pipeline and the allocator are then as
    before. *)
Theorem last_component_applied_then_activated s applyResult rc_e rc_r :
  1 ≤ num_components cfg →
  componentIndex s = num_components cfg - 1 →
  is_Some (component_at cfg (componentIndex s)) →
  handler (updateManager s) = [] →
  is_Some (InstanceIdDb_next (instanceIdDb (updateManager s)) (eid cfg)) →
  applyResult = PLDM_FWUP_APPLY_SUCCESS
  ∨ applyResult = PLDM_FWUP_APPLY_SUCCESS_WITH_ACTIVATION_METHOD →
  ∃ s',
    steps cfg s [ev_applyComplete 0 applyResult rc_e rc_r;
                 ev_deferred 0 0; ev_response 0 ok_response] = Some s' ∧
    deviceCompletion (updateManager s')
    = deviceCompletion (updateManager s) ++ [(eid cfg, true)] ∧
    activationProgress (updateManager s')
    = S (activationProgress (updateManager s)) ∧
    handler (updateManager s') = [] ∧
    instanceIdDb (updateManager s') = instanceIdDb (updateManager s) ∧
    componentIndex s' = 0 ∧
    componentUpdateStatus s' = {[ 0 := true ]} ∧
    pldmRequest s' = None.
Proof.
  intros HN Hidx [comp Hcomp] Hh [[i db'] Hnext] Hres.
  destruct s as [idx st defer tm good [db h c p]].
  cbn [handler updateManager instanceIdDb componentIndex pldmRequest] in *.
  subst h.
  cbn [steps step]. unfold applyComplete.
  cbn [componentIndex]. rewrite Hcomp.
  destruct (decide (0 ≠ 0)) as [?|_]; [done|]. cbn [mbind option_bind].
  rewrite decide_True by done. unfold updateActivationProgress.
  cbn [with_manager componentIndex updateManager].
  rewrite size_t_last by done. rewrite decide_True by done.
  cbn [fmap option_fmap option_map fst mbind option_bind].
  unfold run_deferred. cbn [with_pldmRequest pldmRequest].
  unfold sendActivateFirmwareRequest, next_instance_id.
  cbn -[InstanceIdDb_next InstanceIdDb_free free_on_failure encoded
        registerRequest deliver].
  rewrite Hnext. unfold free_on_failure, encoded.
  destruct (decide (0 ≠ 0)) as [?|_]; [done|].
  rewrite decide_True by done.
  unfold register, registerRequest. rewrite decide_True by done.
  unfold deliver. cbn -[InstanceIdDb_free].
  eexists. split; [done|]. cbn -[InstanceIdDb_free].
  rewrite (InstanceIdDb_next_free _ _ _ _ Hnext).
  by rewrite insert_empty.
Qed.

(** A timeout on the last component when no component has succeeded.
    The timer callback marks the component failed, sends
    CancelUpdateComponent and reports the device as failed; when the
    cancellation is then acknowledged, the device is reported as failed a
    second time. *)
Theorem timeout_is_reported_twice s :
  1 ≤ num_components cfg →
  componentIndex s = num_components cfg - 1 →
  reqFwDataTimer s = Some true →
  (∀ k, k ≠ componentIndex s → componentUpdateStatus s !! k ≠ Some true) →
  handler (updateManager s) = [] →
  is_Some (InstanceIdDb_next (instanceIdDb (updateManager s)) (eid cfg)) →
  ∃ s',
    steps cfg s [ev_timer 0 0; ev_response 0 ok_response] = Some s' ∧
    deviceCompletion (updateManager s')
    = deviceCompletion (updateManager s)
      ++ [(eid cfg, false); (eid cfg, false)] ∧
    componentUpdateStatus s'
    = <[componentIndex s := false]> (componentUpdateStatus s) ∧
    pldmRequest s' = None ∧
    handler (updateManager s') = [] ∧
    instanceIdDb (updateManager s') = instanceIdDb (updateManager s).
Proof.
  intros HN Hidx Htimer Hnone Hh [[i db'] Hnext].
  destruct s as [idx st defer tm good [db h c p]].
  cbn [handler updateManager instanceIdDb componentIndex pldmRequest
       reqFwDataTimer componentUpdateStatus] in *.
  subst h tm.
  cbn [steps step reqFwDataTimer]. unfold reqFwDataTimer_expired.
  unfold sendCancelUpdateComponentRequest, next_instance_id.
  cbn [with_pldmRequest updateManager instanceIdDb with_componentUpdateStatus
       with_reqFwDataTimer componentIndex componentUpdateStatus
       pldmRequest reqFwDataTimer packageGood].
  rewrite Hnext. destruct (decide (0 ≠ 0)) as [?|_]; [done|].
  unfold register, registerRequest. rewrite decide_True by done.
  cbn [mbind option_bind]. unfold deliver.
  cbn -[InstanceIdDb_free cancelUpdateComponent].
  match goal with
  | |- context [cancelUpdateComponent cfg ?t ?e ok_response] =>
      pose proof (cancelUpdateComponent_nothing_succeeded t e HN Hidx)
        as Hfail
  end.
  cbn -[InstanceIdDb_free cancelUpdateComponent] in Hfail.
  rewrite Hfail.
  - eexists. split; [done|]. cbn -[InstanceIdDb_free].
    rewrite (InstanceIdDb_next_free _ _ _ _ Hnext).
    by rewrite <- app_assoc.
  - intros k. destruct (decide (k = idx)) as [->|Hne].
    + by rewrite lookup_insert_eq.
    + rewrite lookup_insert_ne by done. by apply Hnone.
Qed.

End completion.

Lemma cancel_of_last_component_witness :
  fw_update.cancelUpdateComponent examples.cfg examples.partly_failed 9
                                  ok_response
  = fw_update.with_pldmRequest
      (fw_update.with_componentUpdateStatus
         (fw_update.with_componentIndex examples.partly_failed 0) ∅)
      (Some fw_update.defer_sendActivateFirmwareRequest).
Proof.
  apply (cancel_of_last_component examples.cfg examples.partly_failed 9).
  - by vm_compute.
  - reflexivity.
  - exists 0. reflexivity.
Defined.

Lemma last_component_applied_then_activated_witness :
  ∃ s',
    steps examples.cfg examples.serving_last
      [fw_update.ev_applyComplete 0 0 0 0; fw_update.ev_deferred 0 0;
       fw_update.ev_response 0 ok_response] = Some s' ∧
    fw_update.deviceCompletion (fw_update.updateManager s') = [(9, true)].
Proof.
  destruct (last_component_applied_then_activated examples.cfg
              examples.serving_last 0 0 0)
    as (s' & Hrun & Hdone & _).
  - by vm_compute.
  - reflexivity.
  - by eexists.
  - reflexivity.
  - by eexists.
  - by left.
  - exists s'. by split.
Defined.

Lemma timeout_is_reported_twice_witness :
  ∃ s',
    steps examples.cfg examples.serving_last
      [fw_update.ev_timer 0 0; fw_update.ev_response 0 ok_response]
    = Some s' ∧
    fw_update.deviceCompletion (fw_update.updateManager s')
    = [(9, false); (9, false)].
Proof.
  destruct (timeout_is_reported_twice examples.cfg examples.serving_last)
    as (s' & Hrun & Hdone & _).
  - by vm_compute.
  - reflexivity.
  - reflexivity.
  - intros k Hk. change (fw_update.componentIndex examples.serving_last)
      with 1 in Hk.
    unfold examples.serving_last. cbn [fw_update.componentUpdateStatus].
    destruct (decide (k = 0)) as [->|Hk0].
    + by rewrite lookup_insert_eq.
    + rewrite lookup_insert_ne by done. by rewrite lookup_singleton_ne.
  - reflexivity.
  - by eexists.
  - exists s'. by split.
Defined.

(** * Further properties of the sensor-event bridge *)

Section bridge_signals.
Import state_sensor.

Variable mctp_eid : Z.
Variable split : string → list string.

(** [sendEventMsg] hands the event to the pipeline exactly when an
    instance id is free and both the encoder and the registration
    succeed.  Without a free id, or after a failed encode, the bridge is
    exactly as before; the sensor cache is never touched. *)
Theorem sendEventMsg_outcome s eventType data rc_encode rc_register :
  let s' := sendEventMsg mctp_eid s eventType data rc_encode rc_register in
  let available := is_Some (InstanceIdDb_next (instanceIdDb s) mctp_eid) in
  (emitted_events s' = emitted_events s ++ [data]
   ↔ available ∧ rc_encode = 0 ∧ rc_register = 0) ∧
  (¬ (available ∧ rc_encode = 0) → s' = s) ∧
  sensorCacheMap s' = sensorCacheMap s.
Proof.
  intros s' available. subst s' available. unfold sendEventMsg.
  assert (Hne : ∀ l (d : pldm_sensor_event_data), l ≠ l ++ [d]).
  { intros l d Heq. apply (f_equal length) in Heq.
    rewrite length_app in Heq. cbn in Heq. lia. }
  destruct (InstanceIdDb_next _ _) as [[i db]|] eqn:Hnext.
  - destruct (decide (rc_encode = 0)) as [->|Hrc].
    + destruct (decide (0 ≠ 0)) as [?|_]; [done|].
      split; [|split; [|done]].
      * unfold emitted_events, registerRequest. cbn [handler].
        case_decide as Hreg.
        -- rewrite omap_app. cbn. split; [by eauto|done].
        -- split; [by intros ?%Hne|]. by intros (_ & _ & ?).
      * intros []. by eauto.
    + rewrite decide_True by done.
      rewrite (InstanceIdDb_next_free _ _ _ _ Hnext).
      split; [|split; [by destruct s|done]].
      destruct s. cbn. split; [by intros ?%Hne|]. by intros (_ & ? & _).
  - split; [|done]. split; [by intros ?%Hne|]. by intros ([? [=]] & _).
Qed.

(** A signal that does not carry the watched property, or carries a
    value that none of the entries of the value mapping matches, is
    ignored: no event, no cache write, no instance id taken. *)
Theorem unmatched_signal_is_ignored s m props rc_encode rc_register :
  (∀ incoming,
     props !! propertyName (match_dbusMapping m) = Some incoming →
     ∀ itr, itr ∈ match_dbusValueMapping m →
            findValue split (match_dbusMapping m) itr.2 incoming
            = Some false) →
  propertiesChanged mctp_eid split s m props rc_encode rc_register = Some s.
Proof.
  intros Hno. unfold propertiesChanged.
  destruct (props !! propertyName (match_dbusMapping m)) as [incoming|];
    [|done].
  specialize (Hno incoming eq_refl).
  induction (match_dbusValueMapping m) as [|itr rest IH]; [done|].
  cbn [match_loop]. rewrite (Hno itr) by by left. cbn [mbind option_bind].
  apply IH. intros itr' Hin. apply Hno. by right.
Qed.

Lemma first_match_runs s m props incoming before itr after
    rc_encode rc_register :
  props !! propertyName (match_dbusMapping m) = Some incoming →
  match_dbusValueMapping m = before ++ itr :: after →
  (∀ e, e ∈ before →
        findValue split (match_dbusMapping m) e.2 incoming = Some false) →
  findValue split (match_dbusMapping m) itr.2 incoming = Some true →
  let previous :=
    previous_state s (match_sensorId m) (match_offset m) itr.1 in
  propertiesChanged mctp_eid split s m props rc_encode rc_register
  = Some (updateSensorCacheMaps
            (sendEventMsg mctp_eid s PLDM_SENSOR_EVENT
               (mk_sensor_event (match_sensorId m) PLDM_STATE_SENSOR_STATE
                  (u8 (match_offset m)) itr.1 previous)
               rc_encode rc_register)
            (match_sensorId m) (match_offset m) previous).
Proof.
  intros Hprop Hsplit Hbefore Hitr previous. unfold propertiesChanged.
  rewrite Hprop, Hsplit. clear Hsplit.
  induction before as [|e before IH]; cbn [app match_loop].
  - by rewrite Hitr.
  - rewrite (Hbefore e) by by left. cbn [mbind option_bind].
    apply IH. intros e' He'. apply Hbefore. by right.
Qed.

(** The first entry of the value mapping that matches decides the event:
    the bridge sends one sensor event for the match's sensor, with
    [event_class[0]] the composite offset (as a byte), [event_class[1]]
    the state of that entry and [event_class[2]] the state reported as
    previous, and then writes that previous state to the cache.  Entries
    after the matching one are not looked at. *)
Theorem first_match_decides s m props incoming before itr after
    rc_encode rc_register :
  props !! propertyName (match_dbusMapping m) = Some incoming →
  match_dbusValueMapping m = before ++ itr :: after →
  (∀ e, e ∈ before →
        findValue split (match_dbusMapping m) e.2 incoming = Some false) →
  findValue split (match_dbusMapping m) itr.2 incoming = Some true →
  let previous :=
    previous_state s (match_sensorId m) (match_offset m) itr.1 in
  propertiesChanged mctp_eid split s m props rc_encode rc_register
  = Some (updateSensorCacheMaps
            (sendEventMsg mctp_eid s PLDM_SENSOR_EVENT
               (mk_sensor_event (match_sensorId m) PLDM_STATE_SENSOR_STATE
                  (u8 (match_offset m)) itr.1 previous)
               rc_encode rc_register)
            (match_sensorId m) (match_offset m) previous).
Proof.
  intros Hprop Hsplit Hbefore Hitr previous. unfold propertiesChanged.
  rewrite Hprop, Hsplit. clear Hsplit.
  induction before as [|e before IH]; cbn [app match_loop].
  - by rewrite Hitr.
  - rewrite (Hbefore e) by by left. cbn [mbind option_bind].
    apply IH. intros e' He'. apply Hbefore. by right.
Qed.

(** On the first observation of a sensor offset (no known state in the
    cache) the new state is reported as its own previous state, and it is
    the state found in the cache afterwards. *)
Theorem first_observation_self_reports s m props incoming before itr after
    rc_encode rc_register :
  props !! propertyName (match_dbusMapping m) = Some incoming →
  match_dbusValueMapping m = before ++ itr :: after →
  (∀ e, e ∈ before →
        findValue split (match_dbusMapping m) e.2 incoming = Some false) →
  findValue split (match_dbusMapping m) itr.2 incoming = Some true →
  cache_at (sensorCacheMap s) (match_sensorId m) (match_offset m)
  = PLDM_SENSOR_UNKNOWN →
  ∃ s',
    propertiesChanged mctp_eid split s m props rc_encode rc_register
    = Some s' ∧
    cache_at (sensorCacheMap s') (match_sensorId m) (match_offset m)
    = itr.1 ∧
    ∀ data, emitted_events s' = emitted_events s ++ [data] →
            event_class_1 data = itr.1 ∧ event_class_2 data = itr.1.
Proof.
  intros Hprop Hsplit Hbefore Hitr Hunknown.
  assert (Hprev : previous_state s (match_sensorId m) (match_offset m) itr.1
                  = itr.1).
  { unfold previous_state. rewrite Hunknown. cbn.
    by rewrite andb_false_r. }
  eexists. split; [by eapply first_match_runs|]. rewrite Hprev.
  split; [apply updateSensorCacheMaps_cache_at|].
  intros data. unfold emitted_events at 1.
  cbn [updateSensorCacheMaps handler].
  match goal with
  | |- context [sendEventMsg mctp_eid s ?ty ?d ?a ?b] =>
      fold (emitted_events (sendEventMsg mctp_eid s ty d a b));
      destruct (sendEventMsg_emitted mctp_eid s ty d a b) as [-> | ->]
  end.
  - intros Heq. apply (f_equal length) in Heq. rewrite length_app in Heq.
    cbn in Heq. lia.
  - intros Heq. apply app_inv_head in Heq. by inversion Heq.
Qed.

Lemma cache_at_update_other s sensorId offset v sensorId' offset' :
  (sensorId', offset') ≠ (sensorId, offset) →
  cache_at (sensorCacheMap (updateSensorCacheMaps s sensorId offset v))
           sensorId' offset'
  = cache_at (sensorCacheMap s) sensorId' offset'.
Proof.
  intros Hother. unfold cache_at, updateSensorCacheMaps. cbn.
  destruct (decide (sensorId' = sensorId)) as [->|Hsid].
  - rewrite lookup_insert_eq.
    assert (offset' ≠ offset) by congruence.
    rewrite lookup_insert_ne by done.
    by destruct (sensorCacheMap s !! sensorId).
  - by rewrite lookup_insert_ne.
Qed.

(** A signal writes at most the cache entry of its own sensor and
    offset: the state cached for any other sensor or offset is as
    before. *)
Theorem signal_leaves_other_entries s m props rc_encode rc_register s'
    sensorId offset :
  propertiesChanged mctp_eid split s m props rc_encode rc_register
  = Some s' →
  (sensorId, offset) ≠ (match_sensorId m, match_offset m) →
  cache_at (sensorCacheMap s') sensorId offset
  = cache_at (sensorCacheMap s) sensorId offset.
Proof.
  unfold propertiesChanged.
  destruct (props !! propertyName (match_dbusMapping m)) as [incoming|];
    [|by intros [= <-]].
  intros [->|(itr & _ & ->)]%match_loop_written Hother; [done|].
  by apply cache_at_update_other.
Qed.

(** One signal adds at most one event to the pipeline. *)
Lemma propertiesChanged_emits s m props rc_encode rc_register s' :
  propertiesChanged mctp_eid split s m props rc_encode rc_register
  = Some s' →
  emitted_events s' = emitted_events s
  ∨ ∃ data, emitted_events s' = emitted_events s ++ [data].
Proof.
  unfold propertiesChanged.
  destruct (props !! propertyName (match_dbusMapping m)) as [incoming|];
    [|intros [= <-]; by left].
  induction (match_dbusValueMapping m) as [|itr rest IH]; cbn [match_loop].
  - intros [= <-]. by left.
  - destruct (findValue split (match_dbusMapping m) itr.2 incoming)
      as [[]|]; cbn [mbind option_bind]; [|exact IH|done].
    intros [= <-]. unfold emitted_events at 1 3.
    cbn [updateSensorCacheMaps handler].
    match goal with
    | |- context [sendEventMsg mctp_eid s ?ty ?d ?a ?b] =>
        fold (emitted_events (sendEventMsg mctp_eid s ty d a b));
        destruct (sendEventMsg_emitted mctp_eid s ty d a b) as [-> | ->]
    end; [by left|right; by eexists].
Qed.

(** Once a state is known for a sensor offset, it stays: over any run of
    signals for that match the cache entry keeps this state, and every
    event emitted during the run reports it as the previous state,
    whatever states the sensor went through in between. *)
Theorem known_state_is_reported_forever s m sigs s' :
  cache_at (sensorCacheMap s) (match_sensorId m) (match_offset m)
  ≠ PLDM_SENSOR_UNKNOWN →
  signals mctp_eid split s m sigs = Some s' →
  cache_at (sensorCacheMap s') (match_sensorId m) (match_offset m)
  = cache_at (sensorCacheMap s) (match_sensorId m) (match_offset m) ∧
  ∃ new,
    emitted_events s' = emitted_events s ++ new ∧
    Forall (λ data,
              event_class_2 data
              = cache_at (sensorCacheMap s) (match_sensorId m)
                         (match_offset m)) new.
Proof.
  revert s. induction sigs as [|[[props rc_e] rc_r] sigs IH];
    intros s Hknown; cbn [signals].
  - intros [= <-]. split; [done|]. exists []. by rewrite app_nil_r.
  - destruct (propertiesChanged mctp_eid split s m props rc_e rc_r)
      as [s1|] eqn:Hstep; cbn [mbind option_bind]; [|done].
    intros Hrest.
    destruct (propertiesChanged_frozen mctp_eid split s m props rc_e rc_r
                s1 Hknown Hstep) as [Hcache Hevent].
    destruct (IH s1) as (Hcache' & new & Hnew & Hall);
      [by rewrite Hcache|done|].
    rewrite Hcache in Hcache', Hall. split; [done|].
    destruct (propertiesChanged_emits s m props rc_e rc_r s1 Hstep)
      as [Heq|[data Heq]].
    + exists new. by rewrite Hnew, Heq.
    + exists (data :: new). rewrite Hnew, Heq, <- app_assoc.
      split; [done|]. apply Forall_cons. split; [by apply Hevent|done].
Qed.

(** A mapping declared of type "string" is compared through
    [std::get<std::string>]: when the property arrives as another variant
    and the value mapping is not empty, the callback throws instead of
    comparing, before any event is sent. *)
Theorem string_mapping_on_other_variant s m props incoming
    rc_encode rc_register :
  propertyType (match_dbusMapping m) = "string" →
  props !! propertyName (match_dbusMapping m) = Some incoming →
  (∀ str, incoming ≠ pv_string str) →
  match_dbusValueMapping m ≠ [] →
  propertiesChanged mctp_eid split s m props rc_encode rc_register = None.
Proof.
  intros Hty Hprop Hother Hne. unfold propertiesChanged. rewrite Hprop.
  destruct (match_dbusValueMapping m) as [|itr rest]; [done|].
  cbn [match_loop]. unfold findValue. rewrite decide_True by done.
  destruct itr.2; try done. destruct incoming; try done.
  by destruct (Hother str0).
Qed.

End bridge_signals.

Lemma sendEventMsg_outcome_witness :
  state_sensor.sendEventMsg 9 examples.bridge_exhausted PLDM_SENSOR_EVENT
    (mk_sensor_event 0x0101 PLDM_STATE_SENSOR_STATE 0 3 3) 0 0
  = examples.bridge_exhausted.
Proof.
  apply (sendEventMsg_outcome 9 examples.bridge_exhausted PLDM_SENSOR_EVENT
           (mk_sensor_event 0x0101 PLDM_STATE_SENSOR_STATE 0 3 3) 0 0).
  intros [[x Hx] _]. by vm_compute in Hx.
Defined.

Lemma unmatched_signal_is_ignored_witness :
  state_sensor.propertiesChanged 9 examples.no_split examples.bridge0
    examples.sensor_match (examples.changed 99) 0 0
  = Some examples.bridge0.
Proof.
  apply (unmatched_signal_is_ignored 9 examples.no_split examples.bridge0
           examples.sensor_match (examples.changed 99) 0 0).
  intros incoming [= <-] itr Hitr.
  repeat (apply elem_of_cons in Hitr as [->|Hitr]; [reflexivity|]).
  by apply elem_of_nil in Hitr.
Defined.

Lemma first_match_decides_witness :
  state_sensor.propertiesChanged 9 examples.no_split examples.bridge0
    examples.sensor_match (examples.changed 20) 0 0
  = Some (state_sensor.updateSensorCacheMaps
            (state_sensor.sendEventMsg 9 examples.bridge0 PLDM_SENSOR_EVENT
               (mk_sensor_event 0x0101 PLDM_STATE_SENSOR_STATE 0 5 5) 0 0)
            0x0101 0 5).
Proof.
  apply (first_match_decides 9 examples.no_split examples.bridge0
           examples.sensor_match (examples.changed 20)
           (state_sensor.pv_uint8 20) [(3, state_sensor.pv_uint8 10)]
           (5, state_sensor.pv_uint8 20) [(7, state_sensor.pv_uint8 30)]
           0 0 eq_refl eq_refl).
  - intros e He. apply list_elem_of_singleton in He as ->. reflexivity.
  - reflexivity.
Defined.

Lemma first_observation_self_reports_witness :
  ∃ s',
    state_sensor.propertiesChanged 9 examples.no_split examples.bridge0
      examples.sensor_match (examples.changed 20) 0 0 = Some s' ∧
    state_sensor.cache_at (state_sensor.sensorCacheMap s') 0x0101 0 = 5.
Proof.
  destruct (first_observation_self_reports 9 examples.no_split
              examples.bridge0 examples.sensor_match (examples.changed 20)
              (state_sensor.pv_uint8 20) [(3, state_sensor.pv_uint8 10)]
              (5, state_sensor.pv_uint8 20) [(7, state_sensor.pv_uint8 30)]
              0 0 eq_refl eq_refl)
    as (s' & Hrun & Hcache & _).
  - intros e He. apply list_elem_of_singleton in He as ->. reflexivity.
  - reflexivity.
  - reflexivity.
  - exists s'. by split.
Defined.

Lemma signal_leaves_other_entries_witness :
  state_sensor.cache_at
    (state_sensor.sensorCacheMap
       (state_sensor.updateSensorCacheMaps examples.bridge0 0x0101 0 3))
    0x0101 1
  = state_sensor.cache_at (state_sensor.sensorCacheMap examples.bridge0)
                          0x0101 1.
Proof.
  apply (signal_leaves_other_entries 9 examples.no_split examples.bridge0
           examples.sensor_match (examples.changed 10) 0 0
           (state_sensor.updateSensorCacheMaps
              (state_sensor.sendEventMsg 9 examples.bridge0 PLDM_SENSOR_EVENT
                 (mk_sensor_event 0x0101 PLDM_STATE_SENSOR_STATE 0 3 3) 0 0)
              0x0101 0 3) 0x0101 1).
  - reflexivity.
  - done.
Defined.

Lemma known_state_is_reported_forever_witness :
  ∃ s',
    state_sensor.signals 9 examples.no_split examples.bridge_known
      examples.sensor_match
      [(examples.changed 20, 0, 0); (examples.changed 30, 0, 0)] = Some s' ∧
    state_sensor.cache_at (state_sensor.sensorCacheMap s') 0x0101 0 = 3.
Proof.
  eexists. split; [reflexivity|].
  eapply (proj1 (known_state_is_reported_forever 9 examples.no_split
                   examples.bridge_known examples.sensor_match
                   [(examples.changed 20, 0, 0); (examples.changed 30, 0, 0)]
                   _ ltac:(by vm_compute) eq_refl)).
Defined.

Lemma string_mapping_on_other_variant_witness :
  state_sensor.propertiesChanged 9 examples.no_split examples.bridge0
    examples.string_match (examples.changed 10) 0 0 = None.
Proof.
  apply (string_mapping_on_other_variant 9 examples.no_split examples.bridge0
           examples.string_match (examples.changed 10)
           (state_sensor.pv_uint8 10) 0 0 eq_refl eq_refl); done.
Defined.

(** ** Subscriptions *)

Section subscriptions.
Import state_sensor.

Implicit Types dbusMaps :
  gmap Z (list DBusMapping * list (list (Z * PropertyValue))).

Lemma sendStateSensorEvent_matches sensorId dbusMaps dbusMappings dbusValMaps
    made :
  dbusMaps !! sensorId = Some (dbusMappings, dbusValMaps) →
  sendStateSensorEvent sensorId dbusMaps = Some made →
  length made = length dbusMappings ∧
  ∀ (offset : nat) m, made !! offset = Some m →
    ∃ dbusMapping dbusValueMapping,
      dbusMappings !! offset = Some dbusMapping ∧
      dbusValMaps !! offset = Some dbusValueMapping ∧
      m = mk_match sensorId (Z.of_nat offset) dbusMapping dbusValueMapping.
Proof.
  intros Hmap. unfold sendStateSensorEvent. rewrite Hmap.
  intros Hall%mapM_Some. split.
  - apply Forall2_length in Hall. by rewrite length_seq in Hall.
  - intros offset m Hm.
    destruct (Forall2_lookup_r _ _ _ _ _ Hall Hm) as (k & Hk & Hf).
    apply lookup_seq in Hk as [-> _]. cbn in Hf.
    destruct (dbusMappings !! offset) as [dbusMapping|]; [|done].
    destruct (dbusValMaps !! offset) as [dbusValueMapping|]; [|done].
    cbn in Hf. inversion Hf. by eexists _, _.
Qed.

(** For a sensor with a D-Bus map, [sendStateSensorEvent] makes one match
    per composite offset, in order, each with the mapping and the value
    mapping of its offset, provided there is a value mapping for every
    D-Bus mapping; with fewer value mappings than D-Bus mappings the
    function reads past the end of [dbusValMaps]. *)
Theorem one_match_per_offset sensorId dbusMaps dbusMappings dbusValMaps :
  dbusMaps !! sensorId = Some (dbusMappings, dbusValMaps) →
  (length dbusMappings ≤ length dbusValMaps)%nat →
  ∃ made,
    sendStateSensorEvent sensorId dbusMaps = Some made ∧
    length made = length dbusMappings ∧
    ∀ (offset : nat) dbusMapping,
      dbusMappings !! offset = Some dbusMapping →
      ∃ dbusValueMapping,
        dbusValMaps !! offset = Some dbusValueMapping ∧
        made !! offset
        = Some (mk_match sensorId (Z.of_nat offset) dbusMapping
                         dbusValueMapping).
Proof.
  intros Hmap Hlen.
  assert (Hsome : is_Some (sendStateSensorEvent sensorId dbusMaps)).
  { unfold sendStateSensorEvent. rewrite Hmap. apply mapM_is_Some.
    apply Forall_forall. intros offset [_ Hoff]%elem_of_seq. cbn.
    destruct (lookup_lt_is_Some_2 dbusMappings offset) as [? ->]; [lia|].
    destruct (lookup_lt_is_Some_2 dbusValMaps offset) as [? ->]; [lia|].
    by eexists. }
  destruct Hsome as [made Hmade]. exists made. split; [done|].
  destruct (sendStateSensorEvent_matches _ _ _ _ _ Hmap Hmade)
    as [Hlength Hlookup].
  split; [done|]. intros offset dbusMapping Hoff.
  destruct (lookup_lt_is_Some_2 made offset) as [m Hm].
  { rewrite Hlength. by eapply lookup_lt_Some. }
  destruct (Hlookup offset m Hm) as (dm & dv & Hdm & Hdv & ->).
  exists dv. split; [done|]. rewrite Hm. congruence.
Qed.

Theorem missing_value_mapping_is_out_of_range sensorId dbusMaps dbusMappings
    dbusValMaps :
  dbusMaps !! sensorId = Some (dbusMappings, dbusValMaps) →
  (length dbusValMaps < length dbusMappings)%nat →
  sendStateSensorEvent sensorId dbusMaps = None.
Proof.
  intros Hmap Hlen.
  destruct (sendStateSensorEvent sensorId dbusMaps) as [made|] eqn:Hmade;
    [|done].
  destruct (sendStateSensorEvent_matches _ _ _ _ _ Hmap Hmade)
    as [Hlength Hlookup].
  destruct (lookup_lt_is_Some_2 made (length dbusValMaps)) as [m Hm];
    [lia|].
  destruct (Hlookup _ m Hm) as (_ & dv & _ & Hdv & _).
  apply lookup_lt_Some in Hdv. lia.
Qed.

Lemma sendStateSensorEvent_sensor sensorId dbusMaps made m :
  sendStateSensorEvent sensorId dbusMaps = Some made →
  m ∈ made →
  match_sensorId m = sensorId ∧ is_Some (dbusMaps !! sensorId).
Proof.
  intros Hmade Hin.
  destruct (dbusMaps !! sensorId) as [[dbusMappings dbusValMaps]|] eqn:Hmap.
  - apply list_elem_of_lookup in Hin as [offset Hm].
    destruct (sendStateSensorEvent_matches _ _ _ _ _ Hmap Hmade)
      as [_ Hlookup].
    destruct (Hlookup offset m Hm) as (? & ? & _ & _ & ->). by split.
  - unfold sendStateSensorEvent in Hmade. rewrite Hmap in Hmade.
    inversion Hmade; subst. by apply elem_of_nil in Hin.
Qed.

Lemma listen_records_origin sensorPDRs dbusMaps made m :
  listen_records PLDM_STATE_SENSOR_PDR sensorPDRs dbusMaps = Some made →
  m ∈ made →
  ∃ pdr, pdr ∈ sensorPDRs ∧
         match_sensorId m
         = LE16TOH (sensor_id_byte0 pdr) (sensor_id_byte1 pdr) ∧
         is_Some (dbusMaps !! match_sensorId m).
Proof.
  revert made. induction sensorPDRs as [|pdr rest IH]; intros made;
    cbn [listen_records sensorHandlers].
  - intros [= <-] Hin. by apply elem_of_nil in Hin.
  - destruct (sendStateSensorEvent _ dbusMaps) as [first|] eqn:Hfirst;
      cbn [mbind option_bind]; [|done].
    destruct (listen_records _ rest dbusMaps) as [more|];
      cbn [mbind option_bind]; [|done].
    intros [= <-] [Hin|Hin]%elem_of_app.
    + destruct (sendStateSensorEvent_sensor _ _ _ _ Hfirst Hin) as [Hid Hmap].
      exists pdr. split; [by left|]. by rewrite Hid.
    + destruct (IH more eq_refl Hin) as (pdr' & Hpdr & ?).
      exists pdr'. split; [by right|done].
Qed.

(** Every match that [listenSensorEvent] makes belongs to a state-sensor
    PDR of the repository: its sensor id is the little-endian sensor id
    of such a record, and that sensor has a D-Bus map.  Records of other
    PDR types never lead to a match. *)
Theorem matches_come_from_state_sensor_pdrs repo dbusMaps made m :
  listenSensorEvent repo dbusMaps = Some made →
  m ∈ made →
  ∃ pdr, pdr ∈ repo ∧ pdr_type pdr = PLDM_STATE_SENSOR_PDR ∧
         match_sensorId m
         = LE16TOH (sensor_id_byte0 pdr) (sensor_id_byte1 pdr) ∧
         is_Some (dbusMaps !! match_sensorId m).
Proof.
  unfold listenSensorEvent, pdrTypes. cbn [listen_types].
  destruct (getRepoByType repo PLDM_STATE_SENSOR_PDR) as [|pdr0 rest]
    eqn:Hsel.
  { intros [= <-] Hin. by apply elem_of_nil in Hin. }
  rewrite <- Hsel.
  destruct (listen_records _ _ dbusMaps) as [found|] eqn:Hfound;
    cbn [mbind option_bind]; [|done].
  intros [= <-] Hin. rewrite app_nil_r in Hin.
  destruct (listen_records_origin _ _ _ _ Hfound Hin)
    as (pdr & Hpdr & Hid & Hmap).
  unfold getRepoByType in Hpdr. apply list_elem_of_filter in Hpdr as [? ?].
  by exists pdr.
Qed.

(** A repository none of whose state-sensor PDRs has a D-Bus map (an
    empty repository included) leads to no match at all, and this is not
    an error. *)
Theorem sensors_without_map_are_skipped repo dbusMaps :
  (∀ pdr, pdr ∈ repo → pdr_type pdr = PLDM_STATE_SENSOR_PDR →
          dbusMaps !! LE16TOH (sensor_id_byte0 pdr) (sensor_id_byte1 pdr)
          = None) →
  listenSensorEvent repo dbusMaps = Some [].
Proof.
  intros Hnone. unfold listenSensorEvent, pdrTypes. cbn [listen_types].
  assert (Hsel : ∀ pdr, pdr ∈ getRepoByType repo PLDM_STATE_SENSOR_PDR →
            dbusMaps !! LE16TOH (sensor_id_byte0 pdr) (sensor_id_byte1 pdr)
            = None).
  { intros pdr [? ?]%list_elem_of_filter. by apply Hnone. }
  assert (Hrec : listen_records PLDM_STATE_SENSOR_PDR
                   (getRepoByType repo PLDM_STATE_SENSOR_PDR) dbusMaps
                 = Some []).
  { induction (getRepoByType repo PLDM_STATE_SENSOR_PDR) as [|pdr rest IH];
      [done|].
    cbn [listen_records sensorHandlers]. unfold sendStateSensorEvent.
    rewrite (Hsel pdr) by by left. cbn [mbind option_bind].
    rewrite IH; [done|]. intros pdr' Hin. apply Hsel. by right. }
  destruct (getRepoByType repo PLDM_STATE_SENSOR_PDR); [done|].
  by rewrite Hrec.
Qed.

End subscriptions.

Lemma one_match_per_offset_witness :
  ∃ made,
    state_sensor.sendStateSensorEvent 0x0101 examples.dbusMaps = Some made ∧
    length made = 2%nat.
Proof.
  destruct (one_match_per_offset 0x0101 examples.dbusMaps _ _ eq_refl)
    as (made & Hmade & Hlen & _).
  - cbn. lia.
  - exists made. by split.
Defined.

Lemma missing_value_mapping_is_out_of_range_witness :
  state_sensor.sendStateSensorEvent 0x0202 examples.dbusMaps = None.
Proof.
  apply (missing_value_mapping_is_out_of_range 0x0202 examples.dbusMaps
           _ _ eq_refl).
  cbn. lia.
Defined.

Lemma matches_come_from_state_sensor_pdrs_witness :
  ∃ pdr, pdr ∈ examples.repo ∧
         state_sensor.pdr_type pdr = state_sensor.PLDM_STATE_SENSOR_PDR ∧
         0x0101 = state_sensor.LE16TOH (state_sensor.sensor_id_byte0 pdr)
                                       (state_sensor.sensor_id_byte1 pdr).
Proof.
  destruct (state_sensor.listenSensorEvent examples.repo examples.dbusMaps)
    as [made|] eqn:Hmade; [|by vm_compute in Hmade].
  destruct (lookup_lt_is_Some_2 made 0) as [m Hm].
  { vm_compute in Hmade. inversion Hmade. cbn. lia. }
  assert (Hid : state_sensor.match_sensorId m = 0x0101).
  { vm_compute in Hmade. inversion Hmade; subst. by inversion Hm. }
  destruct (matches_come_from_state_sensor_pdrs examples.repo
              examples.dbusMaps made m Hmade)
    as (pdr & Hin & Hty & Hsid & _).
  - apply list_elem_of_lookup. by exists 0%nat.
  - exists pdr. rewrite <- Hid. by repeat split.
Defined.

Lemma sensors_without_map_are_skipped_witness :
  state_sensor.listenSensorEvent
    [state_sensor.mk_pdr state_sensor.PLDM_STATE_SENSOR_PDR 0xCD 0xAB]
    examples.dbusMaps
  = Some [].
Proof.
  apply (sensors_without_map_are_skipped
           [state_sensor.mk_pdr state_sensor.PLDM_STATE_SENSOR_PDR 0xCD 0xAB]
           examples.dbusMaps).
  intros pdr Hin _. apply list_elem_of_singleton in Hin as ->. reflexivity.
Defined.
